(** * koishi-plugin-phimg: the command action of [src/index.ts]

    A shallow embedding of the plugin's [apply] function: the group
    configuration helpers [getGroupConfig] and [updateGroupConfig], the
    search helpers [searchImages] and [selectRandomImage], and the action of
    the command with its ordered option dispatch.

    - JavaScript strings are sequences of UTF-16 code units ([list N]).
    - The table [phimg_config] is a list of rows in insertion order; the
      asynchronous database calls are state-passing computations that may
      throw.
    - The HTTP transport ([axios.get]) and the entropy behind
      [crypto.randomInt] are inputs of the action. *)

From Stdlib Require Import ZArith NArith Ascii String DecimalString.
From stdpp Require Import base tactics list numbers option strings.

(** ** JavaScript strings and arrays *)

Abbreviation jsstring := (list N).

(** Literals are written as UTF-8 text and decoded to UTF-16 code units. *)
Fixpoint utf16_of_utf8 (bs : list N) : jsstring :=
  match bs with
  | [] => []
  | b0 :: r0 =>
    if (b0 <? 0x80)%N then b0 :: utf16_of_utf8 r0 else
    match r0 with
    | [] => [0xFFFD%N]
    | b1 :: r1 =>
      if (b0 <? 0xE0)%N then
        N.lor (N.shiftl (N.land b0 0x1F) 6) (N.land b1 0x3F) :: utf16_of_utf8 r1
      else
      match r1 with
      | [] => [0xFFFD%N]
      | b2 :: r2 =>
        if (b0 <? 0xF0)%N then
          N.lor (N.shiftl (N.land b0 0x0F) 12)
            (N.lor (N.shiftl (N.land b1 0x3F) 6) (N.land b2 0x3F))
          :: utf16_of_utf8 r2
        else
        match r2 with
        | [] => [0xFFFD%N]
        | b3 :: r3 =>
          let cp := N.lor (N.shiftl (N.land b0 0x07) 18)
                     (N.lor (N.shiftl (N.land b1 0x3F) 12)
                       (N.lor (N.shiftl (N.land b2 0x3F) 6) (N.land b3 0x3F))) in
          let v := (cp - 0x10000)%N in
          (0xD800 + N.shiftr v 10)%N :: (0xDC00 + N.land v 0x3FF)%N
          :: utf16_of_utf8 r3
        end
      end
    end
  end.

Definition js (s : string) : jsstring :=
  utf16_of_utf8 (map N_of_ascii (list_ascii_of_string s)).

Arguments js : simpl never.

(** [`${n}`] for an integer and for a boolean. *)
Definition string_of_number (z : Z) : jsstring :=
  js (NilEmpty.string_of_int (Z.to_int z)).

Definition string_of_boolean (b : bool) : jsstring :=
  if b then js "true" else js "false".

(** A string is truthy when it is not empty. *)
Definition truthy (s : jsstring) : bool :=
  match s with [] => false | _ :: _ => true end.

Definition truthy_opt (o : option jsstring) : bool :=
  match o with Some s => truthy s | None => false end.

Definition truthy_flag (o : option bool) : bool :=
  match o with Some b => b | None => false end.

(** [a || b] on strings. *)
Definition or_else (a b : jsstring) : jsstring :=
  if truthy a then a else b.

(** [String.prototype.split] with a one-unit separator. *)
Fixpoint split (sep : N) (s : jsstring) : list jsstring :=
  match s with
  | [] => [[]]
  | c :: s' =>
    if decide (c = sep) then [] :: split sep s'
    else match split sep s' with
         | p :: ps => (c :: p) :: ps
         | [] => [[c]]
         end
  end.

Definition comma : N := 44%N.

(** WhiteSpace and LineTerminator code units, as [trim] strips them. *)
Definition is_white_space (c : N) : bool :=
  bool_decide (c ∈ [0x09; 0x0A; 0x0B; 0x0C; 0x0D; 0x20; 0xA0; 0x1680;
                    0x2028; 0x2029; 0x202F; 0x205F; 0x3000; 0xFEFF]%N)
  || ((0x2000 <=? c)%N && (c <=? 0x200A)%N).

Fixpoint trimStart (s : jsstring) : jsstring :=
  match s with
  | [] => []
  | c :: s' => if is_white_space c then trimStart s' else s
  end.

Definition trimEnd (s : jsstring) : jsstring :=
  reverse (trimStart (reverse s)).

Definition trim (s : jsstring) : jsstring := trimEnd (trimStart s).

(** [Array.prototype.join]. *)
Fixpoint join (sep : jsstring) (l : list jsstring) : jsstring :=
  match l with
  | [] => []
  | [x] => x
  | x :: rest => x ++ sep ++ join sep rest
  end.

(** [String.prototype.endsWith]. *)
Definition endsWith (s suffix : jsstring) : bool :=
  bool_decide (length suffix ≤ length s) &&
  bool_decide (drop (length s - length suffix) s = suffix).

(** [Array.prototype.includes] on strings. *)
Definition includes (l : list jsstring) (x : jsstring) : bool :=
  bool_decide (x ∈ l).

(** A [Set] of strings keeps its elements in insertion order; adding a
    present element changes nothing. [Set_of l] is [[...new Set(l)]]. *)
Definition Set_add (s : list jsstring) (x : jsstring) : list jsstring :=
  if decide (x ∈ s) then s else s ++ [x].

Definition Set_of (l : list jsstring) : list jsstring :=
  foldl Set_add [] l.

(** [text.split(',').map(t => t.trim()).filter(t => t)] *)
Definition parse_tags (text : jsstring) : list jsstring :=
  filter (λ t, truthy t = true) (map trim (split comma text)).

(** ** Records of the plugin *)

(** The plugin's [Config]. *)
Record Config := {
  apiKey : jsstring;
  apiUrl : jsstring;
  defaultTags : list jsstring;
  enabledByDefault : bool;
  useGlobalTagsByDefault : bool
}.

(** A row of the table [phimg_config]; [id] is assigned by the database. *)
Module GroupConfig.
Record t := mk {
  id : option N;
  groupId : jsstring;
  enabled : bool;
  useGlobalTags : bool;
  customTags : list jsstring
}.
End GroupConfig.

(** [Partial<GroupConfig>], with the fields the action ever passes. *)
Module Partial.
Record t := mk {
  enabled : option bool;
  useGlobalTags : option bool;
  customTags : option (list jsstring)
}.
End Partial.

(** A candidate of the image board's answer. *)
Module Image.
Record sizes := mk_sizes {
  full : jsstring;
  medium : jsstring;
  large : jsstring
}.
Record t := mk {
  id : Z;
  score : Z;
  tags : list jsstring;
  representations : sizes
}.
End Image.

(** The object [selectRandomImage] returns. *)
Module Selected.
Record t := mk {
  url : jsstring;
  score : Z;
  id : Z;
  tags : list jsstring
}.
End Selected.

(** Thrown values: [message] and, for an HTTP error answer caught from
    axios, [response] with the status and the body the board sent. *)
Record ErrorResponse := { status : Z; data : jsstring }.
Record JsError := { message : jsstring; response : option ErrorResponse }.

Definition Error (msg : jsstring) : JsError :=
  {| message := msg; response := None |}.

Inductive Result (A : Type) : Type :=
| Ok (a : A)
| Throw (e : JsError).
Arguments Ok {A} a.
Arguments Throw {A} e.

#[global] Instance Result_ret : MRet Result := λ A a, Ok a.
#[global] Instance Result_bind : MBind Result := λ A B k r,
  match r with Ok a => k a | Throw e => Throw e end.

(** [try { body } catch (error) { handler }] *)
Definition try_catch {A} (body : Result A) (handler : JsError → Result A)
  : Result A :=
  match body with Ok a => Ok a | Throw e => handler e end.

(** The request [axios.get] receives: the endpoint, the query parameters
    before their encoding by [URLSearchParams], the headers, the timeout. *)
Record Request := {
  endpoint : jsstring;
  queryParams : list (jsstring * jsstring);
  headers : list (jsstring * jsstring);
  timeout : Z
}.

(** The body of a 2xx answer. *)
Record ResponseData := { total : Z; images : list Image.t }.

Inductive AxiosOutcome :=
| Resolved (response_data : ResponseData)
| Rejected (error : JsError).

(** What the host supplies to one invocation: the transport, the entropy
    [randomInt] draws from, and the errors thrown by library code. *)
Record Host := {
  axios_get : Request → AxiosOutcome;
  entropy : Z;
  out_of_range : JsError;
  undefined_read : JsError;
  unique_violation : JsError
}.

Record AuthUser := { authority : option Z }.
Record Session := { guildId : option jsstring; user : option AuthUser }.

(** The parsed options; an option that was not given is absent. *)
Record Options := {
  opt_add : option jsstring;
  opt_rm : option jsstring;
  opt_tags : option bool;
  opt_on : option bool;
  opt_off : option bool;
  opt_onglobal : option bool;
  opt_offglobal : option bool;
  opt_status : option bool
}.

Definition no_options : Options :=
  Build_Options None None None None None None None None.

(** [--add t], [--rm t], [--on], [--onglobal] and [--status] alone. *)
Definition only_add (t : jsstring) : Options :=
  Build_Options (Some t) None None None None None None None.

Definition only_rm (t : jsstring) : Options :=
  Build_Options None (Some t) None None None None None None.

Definition only_on : Options :=
  Build_Options None None None (Some true) None None None None.

Definition only_onglobal : Options :=
  Build_Options None None None None None (Some true) None None.

Definition only_status : Options :=
  Build_Options None None None None None None None (Some true).

Definition present {A} (o : option A) : nat :=
  match o with Some _ => 1 | None => 0 end.

(** [Object.keys(options).length] *)
Definition keys_length (o : Options) : nat :=
  present (opt_add o) + present (opt_rm o) + present (opt_tags o)
  + present (opt_on o) + present (opt_off o) + present (opt_onglobal o)
  + present (opt_offglobal o) + present (opt_status o).

(** What the action returns: a text, [segment.video(url)], or
    [segment.image(url) + text]. *)
Inductive Response :=
| Text (s : jsstring)
| Video (src : jsstring)
| ImageThenText (src : jsstring) (s : jsstring).

Definition LF : jsstring := [10%N].

Definition helpMessage : jsstring := js "用法: 搜图 [--add [&lt;tags&gt; ...]] [--rm [&lt;tags&gt; ...]] [--tags] [--on] [--off] [--status] [--onglobal] [--offglobal] [&lt;tags&gt;]
选项:
  --add [&lt;tags&gt; ...]       添加标签，多个标签用逗号分隔
  --rm [&lt;tags&gt; ...]        删除标签，多个标签用逗号分隔
  --tags            查看当前标签列表
  --on              开启搜图功能
  --off             关闭搜图功能
  --onglobal        启用全局标签
  --offglobal       禁用全局标签
  --status          查看当前设置
—————
Powered by
Phimg for Koishi @ CyanFlow".

Definition msg_group_only : jsstring := js "搜图功能仅限群聊使用".
Definition msg_not_found : jsstring := js "未找到匹配的图片".
Definition msg_admin_switch : jsstring := js "只有管理员可以修改搜图设置".
Definition msg_admin_global : jsstring := js "只有管理员可以修改全局标签设置".
Definition msg_admin_tags : jsstring := js "只有管理员可以管理标签".
Definition msg_not_enabled : jsstring :=
  js "搜图未在本群开启，管理员请用 “搜图 --on” 启动".
Definition none_text : jsstring := js "无".

(** ** The table [phimg_config] and computations over it *)

Abbreviation Table := (list GroupConfig.t).

Definition M (A : Type) : Type := Table → Result A * Table.

#[global] Instance M_ret : MRet M := λ A a db, (Ok a, db).
#[global] Instance M_bind : MBind M := λ A B k m db,
  match m db with
  | (Ok a, db') => k a db'
  | (Throw e, db') => (Throw e, db')
  end.

(** The next auto-incremented [id]. *)
Definition next_id (db : Table) : N :=
  N.succ (foldr N.max 0%N (omap GroupConfig.id db)).

(** The rows the query [{ groupId }] selects. *)
Definition matching (groupId : jsstring) (db : Table) : list GroupConfig.t :=
  filter (λ row, GroupConfig.groupId row = groupId) db.

(** [ctx.database.get('phimg_config', { groupId })] *)
Definition database_get (groupId : jsstring) : M (list GroupConfig.t) :=
  λ db, (Ok (matching groupId db), db).

(** [ctx.database.create('phimg_config', data)]: [groupId] is unique. *)
Definition database_create (unique_violation : JsError) (data : GroupConfig.t)
  : M GroupConfig.t :=
  λ db,
    match matching (GroupConfig.groupId data) db with
    | _ :: _ => (Throw unique_violation, db)
    | [] =>
      let row := GroupConfig.mk (Some (next_id db)) (GroupConfig.groupId data)
                   (GroupConfig.enabled data) (GroupConfig.useGlobalTags data)
                   (GroupConfig.customTags data) in
      (Ok row, db ++ [row])
    end.

Definition assign (row : GroupConfig.t) (data : Partial.t) : GroupConfig.t :=
  GroupConfig.mk (GroupConfig.id row) (GroupConfig.groupId row)
    (default (GroupConfig.enabled row) (Partial.enabled data))
    (default (GroupConfig.useGlobalTags row) (Partial.useGlobalTags data))
    (default (GroupConfig.customTags row) (Partial.customTags data)).

(** [ctx.database.set('phimg_config', { groupId }, data)] *)
Definition database_set (groupId : jsstring) (data : Partial.t) : M unit :=
  λ db,
    (Ok tt,
     map (λ row, if decide (GroupConfig.groupId row = groupId)
                 then assign row data else row) db).

(** ** The plugin *)

Section Plugin.
Variable config : Config.
Variable host : Host.

Definition getGroupConfig (groupId : jsstring) : M GroupConfig.t :=
  rows ← database_get groupId;
  match rows with
  | groupConfig :: _ => mret groupConfig
  | [] =>
    let defaultConfig :=
      GroupConfig.mk None groupId (enabledByDefault config)
        (useGlobalTagsByDefault config) [] in
    _ ← database_create (unique_violation host) defaultConfig;
    mret defaultConfig
  end.

Definition updateGroupConfig (groupId : jsstring) (data : Partial.t) : M unit :=
  database_set groupId data.

Definition search_request (tags : list jsstring) (apiKey : jsstring) : Request :=
  let queryParams := [(js "q", join (js ",") tags)] in
  let queryParams :=
    if truthy apiKey then queryParams ++ [(js "key", apiKey)] else queryParams in
  let queryParams := queryParams ++ [(js "sf", js "score")] in
  let queryParams := queryParams ++ [(js "sd", js "desc")] in
  let queryParams := queryParams ++ [(js "per_page", js "50")] in
  {| endpoint := apiUrl config;
     queryParams := queryParams;
     headers := [(js "Accept", js "application/json");
                 (js "User-Agent", js "Phimg for Koishi")];
     timeout := 30000 |}.

Definition has_status (error : JsError) (code : Z) : bool :=
  match response error with
  | Some r => bool_decide (status r = code)
  | None => false
  end.

Definition searchImages (tags : list jsstring) (apiKey : jsstring)
  : Result (list Image.t) :=
  let url := search_request tags apiKey in
  try_catch
    (match axios_get host url with
     | Resolved response_data =>
       if bool_decide (total response_data = 0%Z)
       then Throw (Error msg_not_found)
       else Ok (images response_data)
     | Rejected error => Throw error
     end)
    (λ error,
       if has_status error 404 then Throw (Error msg_not_found)
       else Throw (Error (message error))).

(** [randomInt(min, max)]: an integer of [[min, max)] chosen by the
    host's entropy, a [RangeError] when the range is empty. *)
Definition randomInt (min max : Z) : Result Z :=
  if bool_decide (min < max)%Z
  then Ok (min + entropy host `mod` (max - min))%Z
  else Throw (out_of_range host).

Definition selectRandomImage (images : list Image.t) : Result Selected.t :=
  index ← randomInt 0 (Z.of_nat (length images));
  match images !! Z.to_nat index with
  | None => Throw (undefined_read host)
  | Some selected =>
    let file := Image.full (Image.representations selected) in
    Ok (Selected.mk
          (if endsWith file (js ".webm")
           then Image.medium (Image.representations selected)
           else Image.large (Image.representations selected))
          (Image.score selected)
          (Image.id selected)
          (Image.tags selected))
  end.

(** [user?.authority ?? 0] *)
Definition authority_of (user : option AuthUser) : Z :=
  default 0%Z (user ≫= authority).

Definition status_text (groupConfig : GroupConfig.t) : jsstring :=
  js "当前群聊搜图功能状态：" ++ LF ++
  js "启用: " ++ string_of_boolean (GroupConfig.enabled groupConfig) ++ LF ++
  js "自定义标签: " ++
    or_else (join (js ", ") (GroupConfig.customTags groupConfig)) none_text ++ LF ++
  js "全局标签: " ++
    (if GroupConfig.useGlobalTags groupConfig then js "启用" else js "禁用").

(** [allTags] of the search path. *)
Definition compose_tags (groupConfig : GroupConfig.t) (tags : option jsstring)
  : list jsstring :=
  let userTags :=
    match tags with
    | Some text => if truthy text then parse_tags text else []
    | None => []
    end in
  let globalTags :=
    if GroupConfig.useGlobalTags groupConfig then defaultTags config else [] in
  let groupTags := GroupConfig.customTags groupConfig in
  Set_of (globalTags ++ groupTags ++ userTags).

(** The [try] block of the search path and its [catch]. *)
Definition search (allTags : list jsstring) : Response :=
  let attempt : Result Response :=
    images ← searchImages allTags (apiKey config);
    selected ← selectRandomImage images;
    let infoText :=
      js "id: " ++ string_of_number (Selected.id selected) ++ LF ++
      js "score: " ++ string_of_number (Selected.score selected) ++ LF ++
      js "tags: " ++ join (js ", ") allTags in
    if endsWith (Selected.url selected) (js ".webm")
    then Ok (Video (Selected.url selected))
    else Ok (ImageThenText (Selected.url selected) (LF ++ infoText)) in
  match attempt with
  | Ok r => r
  | Throw error => Text (message error)
  end.

(** The action of the command [搜图 <tags:text>]. *)
Definition action (session : option Session) (options : Options)
    (tags : option jsstring) : M Response :=
  match session ≫= guildId with
  | None => mret (Text msg_group_only)
  | Some groupId =>
  if negb (truthy groupId) then mret (Text msg_group_only) else
  groupConfig ← getGroupConfig groupId;
  if negb (truthy_opt tags) && bool_decide (keys_length options = 0) then
    mret (Text helpMessage)
  else
  let user := session ≫= user in
  if truthy_flag (opt_status options) then
    mret (Text (status_text groupConfig))
  else
  if truthy_flag (opt_on options) || truthy_flag (opt_off options) then
    if bool_decide (authority_of user < 2)%Z then
      mret (Text msg_admin_switch)
    else
      let enabled := if truthy_flag (opt_on options) then true else false in
      _ ← updateGroupConfig groupId
            (Partial.mk (Some enabled) None None);
      mret (Text (js "搜图功能已在本群" ++
                  (if enabled then js "开启" else js "关闭")))
  else
  if negb (GroupConfig.enabled groupConfig) then
    mret (Text msg_not_enabled)
  else
  if truthy_flag (opt_onglobal options) || truthy_flag (opt_offglobal options) then
    if bool_decide (authority_of user < 2)%Z then
      mret (Text msg_admin_global)
    else
      let useGlobalTags :=
        if truthy_flag (opt_onglobal options) then true else false in
      _ ← updateGroupConfig groupId
            (Partial.mk None (Some useGlobalTags) None);
      mret (Text (js "全局标签已" ++
                  (if useGlobalTags then js "启用" else js "禁用")))
  else
  if truthy_opt (opt_add options) || truthy_opt (opt_rm options) then
    if bool_decide (authority_of user < 2)%Z then
      mret (Text msg_admin_tags)
    else
      let tagsToModify :=
        parse_tags (if truthy_opt (opt_add options)
                    then default [] (opt_add options)
                    else default [] (opt_rm options)) in
      if truthy_opt (opt_add options) then
        let newTags := Set_of (GroupConfig.customTags groupConfig ++ tagsToModify) in
        _ ← updateGroupConfig groupId (Partial.mk None None (Some newTags));
        mret (Text (js "添加成功，本群标签现为: " ++
                    or_else (join (js ", ") newTags) none_text))
      else
        let newTags :=
          filter (λ t, includes tagsToModify t = false)
                 (GroupConfig.customTags groupConfig) in
        _ ← updateGroupConfig groupId (Partial.mk None None (Some newTags));
        mret (Text (js "删除成功，本群标签现为: " ++
                    or_else (join (js ", ") newTags) none_text))
  else
  if truthy_flag (opt_tags options) then
    mret (Text (js "当前群聊内置标签: " ++
                or_else (join (js ", ") (GroupConfig.customTags groupConfig))
                        none_text))
  else
  if negb (truthy_opt tags) then
    mret (Text helpMessage)
  else
  mret (search (compose_tags groupConfig tags))
  end.

End Plugin.

(** ** Notions used by the statements *)

(** The spec's words for the effective tag set: the duplicate-free
    sequence, each element at its first occurrence. *)
Fixpoint first_occurrences (l : list jsstring) : list jsstring :=
  match l with
  | [] => []
  | x :: l' => x :: filter (λ y, y ≠ x) (first_occurrences l')
  end.

(** The invocations that pass every option test: a text is given and no
    option is truthy. *)
Definition plain_search (options : Options) (tags : option jsstring) : bool :=
  truthy_opt tags
  && negb (truthy_flag (opt_status options))
  && negb (truthy_flag (opt_on options) || truthy_flag (opt_off options))
  && negb (truthy_flag (opt_onglobal options) || truthy_flag (opt_offglobal options))
  && negb (truthy_opt (opt_add options) || truthy_opt (opt_rm options))
  && negb (truthy_flag (opt_tags options)).

Ltac enter_group Hguild Hgid Hget :=
  unfold action; rewrite Hguild, Hgid; cbn [negb];
  unfold mbind at 1, M_bind at 1; rewrite Hget.

Ltac options_values :=
  cbn [opt_add opt_rm opt_tags opt_on opt_off opt_onglobal opt_offglobal
       opt_status truthy_flag truthy_opt orb negb default from_option id].

(** The stored tag lists hold no tag twice. *)
Definition tags_distinct (db : Table) : Prop :=
  Forall (λ row, NoDup (GroupConfig.customTags row)) db.

(** ** Sample data *)

Definition sample_config : Config :=
  Build_Config [] (js "https://derpibooru.org/api/v1/json/search/images?")
    [js "safe"] true true.

Definition sample_host (outcome : AxiosOutcome) (entropy : Z) : Host :=
  Build_Host (λ _, outcome) entropy (Error (js "out of range"))
    (Error (js "undefined")) (Error (js "duplicate entry")).

Definition sample_session (authority : Z) : option Session :=
  Some (Build_Session (Some (js "g1")) (Some (Build_AuthUser (Some authority)))).

Definition sample_row (enabled : bool) (customTags : list jsstring)
  : GroupConfig.t :=
  GroupConfig.mk (Some 1%N) (js "g1") enabled true customTags.

Definition sample_images : list Image.t :=
  [Image.mk 7 120 [js "safe"; js "cute"; js "pony"]
     (Image.mk_sizes (js "x.webm") (js "m.mp4") (js "l.png"));
   Image.mk 8 95 [js "safe"; js "cute"; js "art"]
     (Image.mk_sizes (js "y.png") (js "ym.png") (js "yl.png"))].

Definition sample_answer : AxiosOutcome :=
  Resolved (Build_ResponseData 2 sample_images).

Definition sample_failure : JsError :=
  {| message := js "Request failed with status code 500";
     response := Some {| status := 500; data := js "Internal Server Error" |} |}.

(** ** Notions used by the further properties *)

(** The updates an invocation can issue for a group whose record is
    [groupConfig]: the four calls of [updateGroupConfig] in the action. *)
Inductive update_of (groupConfig : GroupConfig.t) : Partial.t → Prop :=
| update_enabled (b : bool) :
    update_of groupConfig (Partial.mk (Some b) None None)
| update_useGlobalTags (b : bool) :
    update_of groupConfig (Partial.mk None (Some b) None)
| update_add (text : jsstring) :
    update_of groupConfig
      (Partial.mk None None
         (Some (Set_of (GroupConfig.customTags groupConfig ++ parse_tags text))))
| update_rm (text : jsstring) :
    update_of groupConfig
      (Partial.mk None None
         (Some (filter (λ t, includes (parse_tags text) t = false)
                  (GroupConfig.customTags groupConfig)))).

(** No two rows of the table have the same [groupId]. *)
Definition unique_groups (db : Table) : Prop :=
  NoDup (GroupConfig.groupId <$> db).

(** A tag as [parse_tags] produces them: not empty, without comma, and
    left as it is by [trim]. *)
Definition wellformed_tag (t : jsstring) : Prop :=
  t ≠ [] ∧ (comma ∉ t) ∧ trim t = t.

Definition tags_wellformed (db : Table) : Prop :=
  Forall (λ row, Forall wellformed_tag (GroupConfig.customTags row)) db.

(** No option is truthy. *)
Definition no_truthy_option (options : Options) : bool :=
  negb (truthy_flag (opt_status options))
  && negb (truthy_flag (opt_on options) || truthy_flag (opt_off options))
  && negb (truthy_flag (opt_onglobal options) || truthy_flag (opt_offglobal options))
  && negb (truthy_opt (opt_add options) || truthy_opt (opt_rm options))
  && negb (truthy_flag (opt_tags options)).

(** The invocations whose dispatch gets past [status] and [on]/[off], and
    those that also get past [onglobal]/[offglobal]. *)
Definition reaches_global (options : Options) : bool :=
  negb (truthy_flag (opt_status options))
  && negb (truthy_flag (opt_on options) || truthy_flag (opt_off options)).

Definition reaches_edit (options : Options) : bool :=
  reaches_global options
  && negb (truthy_flag (opt_onglobal options) || truthy_flag (opt_offglobal options)).

(** [--off], [--offglobal] and [--tags] alone. *)
Definition only_off : Options :=
  Build_Options None None None None (Some true) None None None.

Definition only_offglobal : Options :=
  Build_Options None None None None None None (Some true) None.

Definition only_tags : Options :=
  Build_Options None None (Some true) None None None None None.

Ltac decide_by_computation := apply (bool_decide_unpack _); vm_compute; exact I.

Ltac blank_text :=
  repeat (constructor; [first [left; reflexivity | right; reflexivity]|]);
  constructor.

(** * Properties *)

(** ** Sets of tags *)

Lemma first_occurrences_elem l x : x ∈ first_occurrences l ↔ x ∈ l.
Proof.
  induction l as [|y l IH]; simpl; [done|].
  rewrite !elem_of_cons, list_elem_of_filter, IH.
  destruct (decide (x = y)) as [->|]; [tauto|].
  split; [tauto|]. intros [?|?]; [done|tauto].
Qed.

Lemma first_occurrences_NoDup l : NoDup (first_occurrences l).
Proof.
  induction l as [|y l IH]; simpl; [constructor|].
  apply NoDup_cons. split.
  - rewrite list_elem_of_filter. by intros [? _].
  - by apply NoDup_filter.
Qed.

Lemma filter_other_id (x : jsstring) (l : list jsstring) :
  x ∉ l → filter (λ y, y ≠ x) l = l.
Proof.
  induction l as [|y l IH]; [done|].
  rewrite not_elem_of_cons. intros [Hxy Hx].
  rewrite filter_cons_True by congruence. by rewrite IH.
Qed.

Lemma first_occurrences_id l : NoDup l → first_occurrences l = l.
Proof.
  induction 1 as [|x l Hx _ IH]; simpl; [done|].
  by rewrite IH, filter_other_id.
Qed.

Lemma foldl_Set_add acc l :
  foldl Set_add acc l = acc ++ filter (λ y, y ∉ acc) (first_occurrences l).
Proof.
  revert acc. induction l as [|x l IH]; intros acc; simpl.
  - by rewrite app_nil_r.
  - rewrite IH. unfold Set_add. destruct (decide (x ∈ acc)) as [Hin|Hin].
    + rewrite filter_cons_False by (intros H; by apply H). f_equal.
      rewrite list_filter_filter. apply list_filter_iff.
      intros y. simpl. split; [|tauto]. intros Hy. split; [done|]. by intros ->.
    + rewrite filter_cons_True by done. rewrite <- app_assoc. simpl.
      do 2 f_equal. rewrite list_filter_filter. apply list_filter_iff.
      intros y. rewrite elem_of_app, list_elem_of_singleton. tauto.
Qed.

Lemma Set_of_first_occurrences l : Set_of l = first_occurrences l.
Proof.
  unfold Set_of. rewrite foldl_Set_add. simpl.
  induction (first_occurrences l) as [|x k IH]; [done|].
  rewrite filter_cons_True by apply not_elem_of_nil. by rewrite IH.
Qed.

Lemma Set_of_elem l x : x ∈ Set_of l ↔ x ∈ l.
Proof. rewrite Set_of_first_occurrences. apply first_occurrences_elem. Qed.

Lemma Set_of_NoDup l : NoDup (Set_of l).
Proof. rewrite Set_of_first_occurrences. apply first_occurrences_NoDup. Qed.

Lemma Set_of_id l : NoDup l → Set_of l = l.
Proof. rewrite Set_of_first_occurrences. apply first_occurrences_id. Qed.

Lemma first_occurrences_sublist l : first_occurrences l `sublist_of` l.
Proof.
  induction l as [|x l IH]; simpl; [done|].
  apply sublist_skip. etrans; [apply sublist_filter|done].
Qed.

(** ** Strings *)

Lemma join_cons_cons sep c p ps :
  join sep ((c :: p) :: ps) = c :: join sep (p :: ps).
Proof. by destruct ps. Qed.

Lemma split_cons sep s : ∃ p ps, split sep s = p :: ps.
Proof.
  induction s as [|c s (p & ps & IH)]; simpl; [by eauto|].
  destruct (decide (c = sep)); [by eauto|]. rewrite IH. eauto.
Qed.

Lemma join_split sep s : join [sep] (split sep s) = s.
Proof.
  induction s as [|c s IH]; [done|]. cbn [split].
  destruct (split_cons sep s) as (p & ps & Hs). rewrite Hs in IH |- *.
  destruct (decide (c = sep)) as [->|].
  - change (join [sep] ([] :: p :: ps)) with (sep :: join [sep] (p :: ps)).
    f_equal. exact IH.
  - rewrite join_cons_cons. f_equal. exact IH.
Qed.

Lemma split_pieces sep s : Forall (λ p, sep ∉ p) (split sep s).
Proof.
  induction s as [|c s IH]; simpl.
  - repeat constructor. apply not_elem_of_nil.
  - destruct (decide (c = sep)).
    + constructor; [apply not_elem_of_nil|done].
    + destruct (split sep s) as [|p ps].
      * repeat constructor. rewrite not_elem_of_cons.
        split; [congruence|apply not_elem_of_nil].
      * apply Forall_cons in IH as [Hp Hps]. constructor; [|done].
        rewrite not_elem_of_cons. split; [congruence|done].
Qed.

Lemma split_without sep s : sep ∉ s → split sep s = [s].
Proof.
  induction s as [|c s IH]; simpl; [done|].
  rewrite not_elem_of_cons. intros [Hc Hs].
  rewrite decide_False by congruence. by rewrite IH.
Qed.

Lemma trimStart_spec s :
  ∃ l, s = l ++ trimStart s ∧ Forall (λ c, is_white_space c = true) l ∧
       ∀ c, head (trimStart s) = Some c → is_white_space c = false.
Proof.
  induction s as [|c s (l & Hs & Hl & Hh)]; simpl.
  - exists []. by repeat split.
  - destruct (is_white_space c) eqn:Hc.
    + exists (c :: l). repeat split; [by rewrite Hs at 1|by constructor|done].
    + exists []. repeat split; [constructor|]. simpl. congruence.
Qed.

Lemma trim_spec s :
  ∃ l r, s = l ++ trim s ++ r ∧
         Forall (λ c, is_white_space c = true) l ∧
         Forall (λ c, is_white_space c = true) r ∧
         (∀ c, head (trim s) = Some c → is_white_space c = false) ∧
         (∀ c, last (trim s) = Some c → is_white_space c = false).
Proof.
  unfold trim, trimEnd.
  destruct (trimStart_spec s) as (l & Hs & Hl & Hh).
  destruct (trimStart_spec (reverse (trimStart s))) as (r & Hr & Hrw & Hrh).
  set (u := trimStart s) in *. set (v := trimStart (reverse u)) in *.
  assert (u = reverse v ++ reverse r) as Hu.
  { rewrite <- reverse_app, <- Hr. by rewrite reverse_involutive. }
  exists l, (reverse r). repeat split.
  - by rewrite <- Hu.
  - done.
  - by apply Forall_reverse.
  - intros c Hc. apply Hh. rewrite Hu. rewrite head_app, Hc. done.
  - intros c. rewrite last_reverse. apply Hrh.
Qed.

Lemma endsWith_spec s suffix :
  endsWith s suffix = true ↔ ∃ p, s = p ++ suffix.
Proof.
  unfold endsWith. rewrite andb_true_iff, !bool_decide_eq_true. split.
  - intros [_ Hd]. exists (take (length s - length suffix) s).
    rewrite <- (take_drop (length s - length suffix) s) at 1. by rewrite Hd.
  - intros [p ->]. rewrite length_app. split; [lia|].
    apply drop_app_length'. lia.
Qed.

Lemma parse_tags_single t :
  comma ∉ t → truthy (trim t) = true → parse_tags t = [trim t].
Proof.
  intros Hc Ht. unfold parse_tags. rewrite split_without by done. simpl.
  by rewrite filter_cons_True.
Qed.

(** ** The table *)

Lemma getGroupConfig_stored config host groupId db row rest :
  matching groupId db = row :: rest →
  getGroupConfig config host groupId db = (Ok row, db).
Proof.
  intros Hrows. unfold getGroupConfig, mbind, M_bind, database_get.
  by rewrite Hrows.
Qed.

Lemma getGroupConfig_fresh config host groupId db :
  matching groupId db = [] →
  getGroupConfig config host groupId db =
    (Ok (GroupConfig.mk None groupId (enabledByDefault config)
           (useGlobalTagsByDefault config) []),
     db ++ [GroupConfig.mk (Some (next_id db)) groupId (enabledByDefault config)
              (useGlobalTagsByDefault config) []]).
Proof.
  intros Hrows.
  unfold getGroupConfig, mbind, M_bind, database_get, database_create.
  rewrite Hrows. simpl. by rewrite Hrows.
Qed.

Lemma matching_groupId groupId db row :
  row ∈ matching groupId db → GroupConfig.groupId row = groupId.
Proof. unfold matching. rewrite list_elem_of_filter. tauto. Qed.

(** [getGroupConfig] never throws, and leaves a row of the group whose
    settings are the ones it returns. *)
Lemma getGroupConfig_total config host groupId db :
  ∃ groupConfig db1 row rest,
    getGroupConfig config host groupId db = (Ok groupConfig, db1) ∧
    matching groupId db1 = row :: rest ∧
    GroupConfig.groupId groupConfig = groupId ∧
    GroupConfig.enabled row = GroupConfig.enabled groupConfig ∧
    GroupConfig.useGlobalTags row = GroupConfig.useGlobalTags groupConfig ∧
    GroupConfig.customTags row = GroupConfig.customTags groupConfig.
Proof.
  destruct (matching groupId db) as [|row rest] eqn:Hrows.
  - exists (GroupConfig.mk None groupId (enabledByDefault config)
              (useGlobalTagsByDefault config) []),
           (db ++ [GroupConfig.mk (Some (next_id db)) groupId
                     (enabledByDefault config) (useGlobalTagsByDefault config) []]),
           (GroupConfig.mk (Some (next_id db)) groupId
              (enabledByDefault config) (useGlobalTagsByDefault config) []), [].
    split; [by apply getGroupConfig_fresh|]. split; [|done].
    unfold matching in *. rewrite filter_app, Hrows. simpl.
    by rewrite filter_cons_True.
  - exists row, db, row, rest. split; [by eapply getGroupConfig_stored|].
    split; [done|]. split; [|done].
    apply (matching_groupId _ db). rewrite Hrows. apply list_elem_of_here.
Qed.

Lemma getGroupConfig_row config host groupId db groupConfig db1 :
  getGroupConfig config host groupId db = (Ok groupConfig, db1) →
  ∃ row rest,
    matching groupId db1 = row :: rest ∧
    GroupConfig.groupId groupConfig = groupId ∧
    GroupConfig.enabled row = GroupConfig.enabled groupConfig ∧
    GroupConfig.useGlobalTags row = GroupConfig.useGlobalTags groupConfig ∧
    GroupConfig.customTags row = GroupConfig.customTags groupConfig.
Proof.
  destruct (getGroupConfig_total config host groupId db)
    as (gc & db' & row & rest & Hget & H).
  rewrite Hget. intros [= <- <-]. eauto.
Qed.

Lemma matching_set groupId data db :
  matching groupId (snd (database_set groupId data db)) =
  map (λ row, assign row data) (matching groupId db).
Proof.
  unfold database_set, matching. simpl.
  induction db as [|row db IH]; [done|]. simpl.
  destruct (decide (GroupConfig.groupId row = groupId)) as [Heq|Hne].
  - rewrite !filter_cons_True by done. simpl. by rewrite IH.
  - by rewrite !filter_cons_False.
Qed.

Lemma matching_set_other groupId other data db :
  other ≠ groupId →
  matching other (snd (database_set groupId data db)) = matching other db.
Proof.
  intros Hne. unfold database_set, matching. simpl.
  induction db as [|row db IH]; [done|]. simpl.
  destruct (decide (GroupConfig.groupId row = groupId)) as [Heq|Hrow].
  - rewrite !filter_cons_False by (simpl; congruence). done.
  - destruct (decide (GroupConfig.groupId row = other)).
    + rewrite !filter_cons_True by done. by rewrite IH.
    + by rewrite !filter_cons_False.
Qed.

(** ** Group configuration store *)

(** C6. For a group with no stored row, [getGroupConfig] returns the
    defaults of the system configuration with an empty tag list and appends
    exactly that record (with the identity the database assigns) to the
    table; a second call returns the stored row, whose [groupId], [enabled],
    [useGlobalTags] and [customTags] are the ones returned first, leaves the
    table as it is, and the group has exactly one row. *)
Theorem getGroupConfig_default_once config host groupId db :
  matching groupId db = [] →
  let defaultConfig :=
    GroupConfig.mk None groupId (enabledByDefault config)
      (useGlobalTagsByDefault config) [] in
  let stored :=
    GroupConfig.mk (Some (next_id db)) groupId (enabledByDefault config)
      (useGlobalTagsByDefault config) [] in
  getGroupConfig config host groupId db = (Ok defaultConfig, db ++ [stored]) ∧
  getGroupConfig config host groupId (db ++ [stored]) = (Ok stored, db ++ [stored]) ∧
  matching groupId (db ++ [stored]) = [stored].
Proof.
  intros Hrows defaultConfig stored.
  assert (matching groupId (db ++ [stored]) = [stored]) as Hone.
  { unfold matching in *. rewrite filter_app, Hrows. simpl.
    by rewrite filter_cons_True. }
  split; [by apply getGroupConfig_fresh|].
  split; [by eapply getGroupConfig_stored|done].
Qed.

(** ** Tag composition *)

Lemma user_tags_parse (tags : option jsstring) :
  match tags with
  | Some text => if truthy text then parse_tags text else []
  | None => []
  end = parse_tags (default [] tags).
Proof. by destruct tags as [[|c text]|]. Qed.

Lemma compose_tags_first_occurrences config groupConfig tags :
  compose_tags config groupConfig tags =
  first_occurrences
    ((if GroupConfig.useGlobalTags groupConfig then defaultTags config else [])
     ++ GroupConfig.customTags groupConfig ++ parse_tags (default [] tags)).
Proof.
  unfold compose_tags. by rewrite user_tags_parse, Set_of_first_occurrences.
Qed.

(** C7. Tag composition takes only the configuration, the group's record
    and the text. The text is split at its commas (joining the pieces with
    commas gives the text back and no piece holds a comma), each piece is
    trimmed (white space is removed at both ends and only there), empty
    pieces are dropped. The effective set is the duplicate-free sequence of
    first occurrences of global tags (when [useGlobalTags] holds), then
    custom tags, then user tags; composing it again from itself changes
    nothing. The example of the spec evaluates to [safe, art, cute]. *)
Theorem tag_composition config groupConfig tags :
  let text := default [] tags in
  let userTags := parse_tags text in
  let globalTags :=
    if GroupConfig.useGlobalTags groupConfig then defaultTags config else [] in
  let groupTags := GroupConfig.customTags groupConfig in
  let allTags := compose_tags config groupConfig tags in
  join [comma] (split comma text) = text ∧
  Forall (λ piece, comma ∉ piece) (split comma text) ∧
  (∀ piece, ∃ l r,
      piece = l ++ trim piece ++ r ∧
      Forall (λ c, is_white_space c = true) l ∧
      Forall (λ c, is_white_space c = true) r ∧
      (∀ c, head (trim piece) = Some c → is_white_space c = false) ∧
      (∀ c, last (trim piece) = Some c → is_white_space c = false)) ∧
  userTags = filter (λ t, t ≠ []) (trim <$> split comma text) ∧
  allTags = first_occurrences (globalTags ++ groupTags ++ userTags) ∧
  NoDup allTags ∧
  (∀ t, t ∈ allTags ↔ t ∈ globalTags ∨ t ∈ groupTags ∨ t ∈ userTags) ∧
  allTags `sublist_of` globalTags ++ groupTags ++ userTags ∧
  Set_of allTags = allTags ∧
  compose_tags
    (Build_Config [] [] [js "safe"] true true)
    (GroupConfig.mk None (js "g") true true [js "art"])
    (Some (js "safe, art, cute"))
  = [js "safe"; js "art"; js "cute"].
Proof.
  intros text userTags globalTags groupTags allTags.
  assert (allTags = first_occurrences (globalTags ++ groupTags ++ userTags))
    as Hall by apply compose_tags_first_occurrences.
  split; [apply join_split|]. split; [apply split_pieces|].
  split; [apply trim_spec|].
  split.
  { unfold userTags, parse_tags. apply list_filter_iff. intros [|c t]; by simpl. }
  split; [done|]. rewrite Hall.
  split; [apply first_occurrences_NoDup|].
  split.
  { intros t. by rewrite first_occurrences_elem, !elem_of_app. }
  split; [apply first_occurrences_sublist|].
  split; [apply Set_of_id, first_occurrences_NoDup|].
  by vm_compute.
Qed.

(** ** Selection *)

Lemma randomInt_range host (max : Z) :
  (0 < max)%Z →
  ∃ index, randomInt host 0 max = Ok index ∧ (0 ≤ index < max)%Z.
Proof.
  intros Hmax. unfold randomInt. rewrite bool_decide_eq_true_2 by done.
  eexists. split; [done|]. rewrite Z.sub_0_r, Z.add_0_l.
  by apply Z.mod_pos_bound.
Qed.

Lemma selectRandomImage_ok host images :
  images ≠ [] →
  ∃ selected,
    selected ∈ images ∧
    selectRandomImage host images =
      Ok (Selected.mk
            (if endsWith (Image.full (Image.representations selected)) (js ".webm")
             then Image.medium (Image.representations selected)
             else Image.large (Image.representations selected))
            (Image.score selected) (Image.id selected) (Image.tags selected)).
Proof.
  intros Hne.
  destruct (randomInt_range host (Z.of_nat (length images)))
    as (index & Hindex & Hrange).
  { destruct images; [done|]. simpl. lia. }
  destruct (lookup_lt_is_Some_2 images (Z.to_nat index)) as [selected Hsel];
    [lia|].
  exists selected. split; [by eapply list_elem_of_lookup_2|].
  unfold selectRandomImage, mbind, Result_bind. by rewrite Hindex, Hsel.
Qed.

(** C8. For a non-empty candidate list [selectRandomImage] returns a
    record built from an element of the list: its score, id and tags, and as url
    its [medium] representation when the [full] one ends in [.webm] (that is,
    [full] is some stem followed by [.webm]) and its [large] representation
    otherwise. *)
Theorem selectRandomImage_member host images :
  images ≠ [] →
  ∃ selected result,
    selected ∈ images ∧
    selectRandomImage host images = Ok result ∧
    Selected.score result = Image.score selected ∧
    Selected.id result = Image.id selected ∧
    Selected.tags result = Image.tags selected ∧
    ((∃ stem, Image.full (Image.representations selected) = stem ++ js ".webm") →
     Selected.url result = Image.medium (Image.representations selected)) ∧
    ((¬ ∃ stem, Image.full (Image.representations selected) = stem ++ js ".webm") →
     Selected.url result = Image.large (Image.representations selected)).
Proof.
  intros Hne. destruct (selectRandomImage_ok host images Hne)
    as (selected & Hin & Hsel).
  eexists selected, _. split; [done|]. split; [exact Hsel|]. simpl.
  split; [done|]. split; [done|]. split; [done|].
  destruct (endsWith _ _) eqn:Hends.
  - split; [done|]. intros Hno. destruct Hno. by apply endsWith_spec.
  - split; [|done]. intros Hstem. apply endsWith_spec in Hstem. congruence.
Qed.

(** ** The search path *)

Lemma action_search config host session options tags db gid groupConfig db1 :
  session ≫= guildId = Some gid → truthy gid = true →
  getGroupConfig config host gid db = (Ok groupConfig, db1) →
  GroupConfig.enabled groupConfig = true →
  plain_search options tags = true →
  action config host session options tags db =
    (Ok (search config host (compose_tags config groupConfig tags)), db1).
Proof.
  intros Hguild Hgid Hget Hen Hplain. unfold plain_search in Hplain.
  repeat (apply andb_true_iff in Hplain as [Hplain ?]).
  repeat match goal with H : negb _ = true |- _ => apply negb_true_iff in H end.
  enter_group Hguild Hgid Hget.
  repeat match goal with H : _ = _ |- _ => rewrite H end. done.
Qed.

Lemma search_total_zero config host allTags body :
  axios_get host (search_request config allTags (apiKey config)) = Resolved body →
  total body = 0%Z →
  search config host allTags = Text msg_not_found.
Proof.
  intros Hget Hzero. unfold search, searchImages, mbind, Result_bind.
  rewrite Hget, bool_decide_eq_true_2 by done. done.
Qed.

Lemma search_rejected config host allTags error :
  axios_get host (search_request config allTags (apiKey config)) = Rejected error →
  search config host allTags =
    Text (if has_status error 404 then msg_not_found else message error).
Proof.
  intros Hget. unfold search, searchImages, mbind, Result_bind.
  rewrite Hget. simpl. by destruct (has_status error 404).
Qed.

(** C4. On the search path, an answer whose [total] is 0 and a rejection
    whose response has status 404 both make the action return the text
    [未找到匹配的图片]; the action returns it, nothing is thrown. *)
Theorem search_no_results config host session options tags db gid groupConfig db1 :
  session ≫= guildId = Some gid → truthy gid = true →
  getGroupConfig config host gid db = (Ok groupConfig, db1) →
  GroupConfig.enabled groupConfig = true →
  plain_search options tags = true →
  let request :=
    search_request config (compose_tags config groupConfig tags) (apiKey config) in
  (∃ body, axios_get host request = Resolved body ∧ total body = 0%Z) ∨
  (∃ error r, axios_get host request = Rejected error ∧
              response error = Some r ∧ status r = 404%Z) →
  action config host session options tags db = (Ok (Text msg_not_found), db1).
Proof.
  intros Hguild Hgid Hget Hen Hplain request Hanswer.
  rewrite (action_search _ _ _ _ _ _ _ _ _ Hguild Hgid Hget Hen Hplain).
  do 2 f_equal. destruct Hanswer as [(body & Hbody & Hzero)|(error & r & Herr & Hr & Hs)].
  - by eapply search_total_zero.
  - rewrite (search_rejected _ _ _ _ Herr). unfold has_status.
    by rewrite Hr, bool_decide_eq_true_2.
Qed.

(** C9 (amended). On the search path, when the transport rejects with an
    error whose response has a status other than 404, the action returns the
    [message] of that error as its text; the body the board sent is not
    read. *)
Theorem search_failure_message config host session options tags db gid groupConfig db1
    error r :
  session ≫= guildId = Some gid → truthy gid = true →
  getGroupConfig config host gid db = (Ok groupConfig, db1) →
  GroupConfig.enabled groupConfig = true →
  plain_search options tags = true →
  axios_get host
    (search_request config (compose_tags config groupConfig tags) (apiKey config))
    = Rejected error →
  response error = Some r → status r ≠ 404%Z →
  action config host session options tags db = (Ok (Text (message error)), db1).
Proof.
  intros Hguild Hgid Hget Hen Hplain Herr Hr Hs.
  rewrite (action_search _ _ _ _ _ _ _ _ _ Hguild Hgid Hget Hen Hplain).
  rewrite (search_rejected _ _ _ _ Herr). unfold has_status.
  by rewrite Hr, bool_decide_eq_false_2.
Qed.

(** C1 (amended). When the query for the composed tags answers with a
    non-empty candidate list, the record [selectRandomImage] returns carries
    the selected image's own tag list in [tags]. The composed tags are what
    the request sends as [q], joined by commas, and what the info text after
    an image lists. *)
Theorem selected_tags_of_image config host allTags images :
  searchImages config host allTags (apiKey config) = Ok images →
  images ≠ [] →
  ∃ selected result,
    selected ∈ images ∧
    selectRandomImage host images = Ok result ∧
    Selected.tags result = Image.tags selected ∧
    (js "q", join (js ",") allTags)
      ∈ queryParams (search_request config allTags (apiKey config)) ∧
    search config host allTags =
      if endsWith (Selected.url result) (js ".webm")
      then Video (Selected.url result)
      else ImageThenText (Selected.url result)
             (LF ++ js "id: " ++ string_of_number (Selected.id result) ++ LF ++
              js "score: " ++ string_of_number (Selected.score result) ++ LF ++
              js "tags: " ++ join (js ", ") allTags).
Proof.
  intros Hsearch Hne.
  destruct (selectRandomImage_ok host images Hne) as (selected & Hin & Hsel).
  eexists selected, _. split; [done|]. split; [exact Hsel|]. split; [done|].
  split.
  { unfold search_request. simpl. destruct (truthy (apiKey config)); simpl;
      apply list_elem_of_here. }
  unfold search, mbind, Result_bind. rewrite Hsearch, Hsel.
  match goal with |- context [if ?b then Ok _ else Ok _] => by destruct b end.
Qed.

(** ** Option dispatch *)

Lemma truthy_flag_present o : truthy_flag o = true → present o = 1.
Proof. by destruct o. Qed.

Lemma truthy_opt_present o : truthy_opt o = true → present o = 1.
Proof. by destruct o. Qed.

Lemma given_not_bare options tags :
  truthy_opt tags = true ∨ keys_length options ≠ 0 →
  negb (truthy_opt tags) && bool_decide (keys_length options = 0) = false.
Proof.
  intros [->|Hkeys]; [done|].
  rewrite (bool_decide_eq_false_2 _ Hkeys). apply andb_false_r.
Qed.

Lemma orb_flag_keys options (a b : option bool) :
  truthy_flag a || truthy_flag b = true →
  present a + present b ≤ keys_length options →
  keys_length options ≠ 0.
Proof.
  intros Hab Hle. apply orb_true_iff in Hab as [H|H];
    apply truthy_flag_present in H; lia.
Qed.

Lemma orb_opt_keys options (a b : option jsstring) :
  truthy_opt a || truthy_opt b = true →
  present a + present b ≤ keys_length options →
  keys_length options ≠ 0.
Proof.
  intros Hab Hle. apply orb_true_iff in Hab as [H|H];
    apply truthy_opt_present in H; lia.
Qed.

Lemma bind_update {B} groupId data (k : unit → M B) db :
  (updateGroupConfig groupId data ≫= k) db =
  k tt (snd (database_set groupId data db)).
Proof. reflexivity. Qed.

Lemma action_no_update config host session options tags db gid groupConfig db1 :
  session ≫= guildId = Some gid → truthy gid = true →
  getGroupConfig config host gid db = (Ok groupConfig, db1) →
  (authority_of (session ≫= user) < 2)%Z →
  ∃ r, action config host session options tags db = (Ok r, db1).
Proof.
  intros Hguild Hgid Hget Hlow. enter_group Hguild Hgid Hget. cbv zeta.
  rewrite !(bool_decide_eq_true_2 _ Hlow).
  destruct (negb (truthy_opt tags) && _); [by eexists|].
  destruct (truthy_flag (opt_status options)); [by eexists|].
  destruct (truthy_flag (opt_on options) || _); [by eexists|].
  destruct (negb (GroupConfig.enabled groupConfig)); [by eexists|].
  destruct (truthy_flag (opt_onglobal options) || _); [by eexists|].
  destruct (truthy_opt (opt_add options) || _); [by eexists|].
  destruct (truthy_flag (opt_tags options)); [by eexists|].
  destruct (negb (truthy_opt tags)); by eexists.
Qed.

(** C3 (amended). For a caller whose authority is below 2 (an absent
    authority counts as 0) no invocation issues an update: the table is left
    as [getGroupConfig] leaves it. The answer is a permission-denied text
    when the dispatch reaches the administrative option: for [on]/[off] when
    [status] is not given; for [onglobal]/[offglobal] when moreover
    [on]/[off] are not given and the group is enabled; for [add]/[rm] with a
    non-empty value when moreover [onglobal]/[offglobal] are not given. *)
Theorem low_authority_denied config host session options tags db gid groupConfig db1 :
  session ≫= guildId = Some gid → truthy gid = true →
  getGroupConfig config host gid db = (Ok groupConfig, db1) →
  (authority_of (session ≫= user) < 2)%Z →
  (∃ r, action config host session options tags db = (Ok r, db1)) ∧
  (truthy_flag (opt_status options) = false →
   truthy_flag (opt_on options) || truthy_flag (opt_off options) = true →
   action config host session options tags db = (Ok (Text msg_admin_switch), db1)) ∧
  (truthy_flag (opt_status options) = false →
   truthy_flag (opt_on options) || truthy_flag (opt_off options) = false →
   GroupConfig.enabled groupConfig = true →
   truthy_flag (opt_onglobal options) || truthy_flag (opt_offglobal options) = true →
   action config host session options tags db = (Ok (Text msg_admin_global), db1)) ∧
  (truthy_flag (opt_status options) = false →
   truthy_flag (opt_on options) || truthy_flag (opt_off options) = false →
   GroupConfig.enabled groupConfig = true →
   truthy_flag (opt_onglobal options) || truthy_flag (opt_offglobal options) = false →
   truthy_opt (opt_add options) || truthy_opt (opt_rm options) = true →
   action config host session options tags db = (Ok (Text msg_admin_tags), db1)).
Proof.
  intros Hguild Hgid Hget Hlow.
  split; [by eapply action_no_update|].
  repeat split.
  - intros Hst Hsw. enter_group Hguild Hgid Hget. cbv zeta.
    rewrite given_not_bare, Hst, Hsw, bool_decide_eq_true_2; [done..|].
    right. eapply orb_flag_keys; [done|]. unfold keys_length. lia.
  - intros Hst Hsw Hen Hgl. enter_group Hguild Hgid Hget. cbv zeta.
    rewrite given_not_bare, Hst, Hsw, Hen, Hgl, bool_decide_eq_true_2; [done..|].
    right. eapply orb_flag_keys; [done|]. unfold keys_length. lia.
  - intros Hst Hsw Hen Hgl Hed. enter_group Hguild Hgid Hget. cbv zeta.
    rewrite given_not_bare, Hst, Hsw, Hen, Hgl, Hed, bool_decide_eq_true_2;
      [done..|].
    right. eapply orb_opt_keys; [done|]. unfold keys_length. lia.
Qed.

(** C5. In a group conversation the dispatch tests [status], then
    [on]/[off], and only then the group's [enabled] flag: [status] answers
    with the settings and [on]/[off] by a caller of authority 2 or more
    stores the new [enabled] value whatever the flag was (below 2 it is
    refused), while on a disabled group every other invocation that gives an
    option or a text (so [onglobal], [offglobal], [add], [rm], [tags] and
    the search) answers with the not-enabled text and issues no update. *)
Theorem dispatch_priority config host session options tags db gid groupConfig db1 :
  session ≫= guildId = Some gid → truthy gid = true →
  getGroupConfig config host gid db = (Ok groupConfig, db1) →
  (truthy_flag (opt_status options) = true →
   action config host session options tags db =
     (Ok (Text (status_text groupConfig)), db1)) ∧
  (truthy_flag (opt_status options) = false →
   truthy_flag (opt_on options) || truthy_flag (opt_off options) = true →
   ((authority_of (session ≫= user) < 2)%Z →
    action config host session options tags db =
      (Ok (Text msg_admin_switch), db1)) ∧
   ((2 ≤ authority_of (session ≫= user))%Z →
    ∃ db2 row rest,
      action config host session options tags db =
        (Ok (Text (js "搜图功能已在本群" ++
                   (if truthy_flag (opt_on options) then js "开启" else js "关闭"))),
         db2) ∧
      db2 = snd (database_set gid
                   (Partial.mk (Some (truthy_flag (opt_on options))) None None) db1) ∧
      matching gid db2 = row :: rest ∧
      GroupConfig.enabled row = truthy_flag (opt_on options) ∧
      getGroupConfig config host gid db2 = (Ok row, db2))) ∧
  (truthy_flag (opt_status options) = false →
   truthy_flag (opt_on options) || truthy_flag (opt_off options) = false →
   GroupConfig.enabled groupConfig = false →
   truthy_opt tags = true ∨ keys_length options ≠ 0 →
   action config host session options tags db = (Ok (Text msg_not_enabled), db1)).
Proof.
  intros Hguild Hgid Hget. split; [|split].
  - intros Hst. enter_group Hguild Hgid Hget. cbv zeta.
    rewrite given_not_bare, Hst; [done|].
    right. pose proof (truthy_flag_present _ Hst). unfold keys_length. lia.
  - intros Hst Hsw.
    assert (keys_length options ≠ 0) as Hkeys.
    { eapply orb_flag_keys; [done|]. unfold keys_length. lia. }
    split.
    + intros Hlow. enter_group Hguild Hgid Hget. cbv zeta.
      rewrite given_not_bare, Hst, Hsw, bool_decide_eq_true_2; by auto.
    + intros Hadmin.
      destruct (getGroupConfig_row _ _ _ _ _ _ Hget)
        as (row & rest & Hrows & _ & _ & _ & _).
      pose proof (matching_set gid
        (Partial.mk (Some (truthy_flag (opt_on options))) None None) db1) as Hset.
      rewrite Hrows in Hset. simpl in Hset.
      eexists _, _, _. split; [|split; [done|split; [exact Hset|split; [done|]]]].
      * enter_group Hguild Hgid Hget. cbv zeta.
        rewrite given_not_bare, Hst, Hsw, bool_decide_eq_false_2, bind_update;
          [|lia|by auto].
        by destruct (truthy_flag (opt_on options)).
      * by eapply getGroupConfig_stored.
  - intros Hst Hsw Hen Hgiven. enter_group Hguild Hgid Hget. cbv zeta.
    by rewrite given_not_bare, Hst, Hsw, Hen.
Qed.

(** ** Custom tags *)

Lemma getGroupConfig_distinct config host groupId db groupConfig db1 :
  tags_distinct db →
  getGroupConfig config host groupId db = (Ok groupConfig, db1) →
  tags_distinct db1 ∧ NoDup (GroupConfig.customTags groupConfig).
Proof.
  intros Hdb. destruct (matching groupId db) as [|row rest] eqn:Hrows.
  - rewrite getGroupConfig_fresh by done. intros [= <- <-]. split.
    + apply Forall_app. split; [done|]. repeat constructor.
    + constructor.
  - rewrite (getGroupConfig_stored _ _ _ _ row rest) by done.
    intros [= <- <-]. split; [done|].
    assert (row ∈ db) as Hin.
    { assert (row ∈ matching groupId db) as Hm
        by (rewrite Hrows; apply list_elem_of_here).
      unfold matching in Hm. apply list_elem_of_filter in Hm. tauto. }
    by apply (proj1 (Forall_forall _ _) Hdb).
Qed.

Lemma database_set_distinct groupId data db :
  tags_distinct db →
  (∀ l, Partial.customTags data = Some l → NoDup l) →
  tags_distinct (snd (database_set groupId data db)).
Proof.
  intros Hdb Hdata. unfold database_set, tags_distinct. simpl.
  apply Forall_fmap. eapply Forall_impl; [exact Hdb|].
  intros row Hrow. simpl. destruct (decide _); [|done].
  unfold assign. simpl. destruct (Partial.customTags data) as [l|]; simpl; auto.
Qed.

Lemma removed_NoDup (tagsToModify customTags : list jsstring) :
  NoDup customTags →
  NoDup (filter (λ t, includes tagsToModify t = false) customTags).
Proof. apply NoDup_filter. Qed.

Lemma action_distinct config host session options tags db :
  tags_distinct db →
  tags_distinct (snd (action config host session options tags db)).
Proof.
  intros Hdb. unfold action.
  destruct (session ≫= guildId) as [gid|]; [|done].
  destruct (truthy gid); [|done]. cbn [negb].
  destruct (getGroupConfig_total config host gid db)
    as (groupConfig & db1 & _ & _ & Hget & _).
  destruct (getGroupConfig_distinct _ _ _ _ _ _ Hdb Hget) as [Hdb1 Hgc].
  unfold mbind at 1, M_bind at 1. rewrite Hget. cbv zeta.
  destruct (negb (truthy_opt tags) && _); [done|].
  destruct (truthy_flag (opt_status options)); [done|].
  destruct (truthy_flag (opt_on options) || _).
  { destruct (bool_decide _); [done|]. rewrite bind_update.
    by apply database_set_distinct. }
  destruct (negb (GroupConfig.enabled groupConfig)); [done|].
  destruct (truthy_flag (opt_onglobal options) || _).
  { destruct (bool_decide _); [done|]. rewrite bind_update.
    by apply database_set_distinct. }
  destruct (truthy_opt (opt_add options) || _).
  { destruct (bool_decide _); [done|].
    destruct (truthy_opt (opt_add options)); rewrite bind_update;
      (apply database_set_distinct; [done|]); intros l [= <-].
    - apply Set_of_NoDup.
    - by apply removed_NoDup. }
  destruct (truthy_flag (opt_tags options)); [done|].
  by destruct (negb (truthy_opt tags)).
Qed.

(** C10. When no stored tag list holds a tag twice, none does after an
    invocation of the command, whatever its options. In particular the list
    [add] builds from a duplicate-free list and the parsed tags holds exactly
    the old and the new tags, none twice, and the list [rm] builds is a
    duplicate-free subsequence of the old list without the parsed tags. *)
Theorem customTags_stay_distinct config host session options tags db r db' :
  tags_distinct db →
  action config host session options tags db = (r, db') →
  tags_distinct db' ∧
  ∀ customTags tagsToModify,
    NoDup customTags →
    let added := Set_of (customTags ++ tagsToModify) in
    let removed := filter (λ t, includes tagsToModify t = false) customTags in
    NoDup added ∧
    (∀ t, t ∈ added ↔ t ∈ customTags ∨ t ∈ tagsToModify) ∧
    NoDup removed ∧
    removed `sublist_of` customTags ∧
    (∀ t, t ∈ removed ↔ t ∈ customTags ∧ t ∉ tagsToModify).
Proof.
  intros Hdb Hact. split.
  - change db' with (snd (r, db')). rewrite <- Hact. by apply action_distinct.
  - intros customTags tagsToModify Hnd added removed.
    split; [apply Set_of_NoDup|].
    split; [intros t; unfold added; by rewrite Set_of_elem, elem_of_app|].
    split; [by apply removed_NoDup|].
    split; [apply sublist_filter|].
    intros t. unfold removed, includes.
    rewrite list_elem_of_filter, bool_decide_eq_false. tauto.
Qed.

Lemma trim_truthy t : truthy (trim t) = true → truthy t = true.
Proof. by destruct t. Qed.

Lemma Set_of_snoc l t : NoDup l → t ∉ l → Set_of (l ++ [t]) = l ++ [t].
Proof.
  intros Hnd Ht. apply Set_of_id, NoDup_app. split; [done|]. split.
  - intros x Hx. rewrite list_elem_of_singleton. by intros ->.
  - apply NoDup_singleton.
Qed.

Lemma remove_snoc (l : list jsstring) t :
  t ∉ l → filter (λ x, includes [t] x = false) (l ++ [t]) = l.
Proof.
  intros Ht. rewrite filter_app. rewrite filter_cons_False, filter_nil, app_nil_r.
  - induction l as [|y l IH]; [done|]. apply not_elem_of_cons in Ht as [Hy Ht].
    rewrite filter_cons_True, IH; [done..|].
    unfold includes. rewrite bool_decide_eq_false, list_elem_of_singleton.
    congruence.
  - unfold includes. rewrite bool_decide_eq_false, list_elem_of_singleton.
    by intros H.
Qed.

(** C2 (amended). For a stored configuration of an enabled group whose
    [customTags] holds no tag twice, an administrator, and a tag string [t]
    without comma that is not empty after trimming and whose trimmed form is
    not yet in [customTags]: [add] with [t] stores the list extended by the
    trimmed tag, and [rm] with [t] after it stores the list as it was before
    the [add]. *)
Theorem add_then_rm_restores config host session t db gid groupConfig db1 :
  session ≫= guildId = Some gid → truthy gid = true →
  (2 ≤ authority_of (session ≫= user))%Z →
  getGroupConfig config host gid db = (Ok groupConfig, db1) →
  GroupConfig.enabled groupConfig = true →
  comma ∉ t → truthy (trim t) = true →
  NoDup (GroupConfig.customTags groupConfig) →
  trim t ∉ GroupConfig.customTags groupConfig →
  ∃ db2 added db3 final,
    action config host session (only_add t) None db =
      (Ok (Text (js "添加成功，本群标签现为: " ++
                 or_else (join (js ", ")
                            (GroupConfig.customTags groupConfig ++ [trim t]))
                         none_text)), db2) ∧
    getGroupConfig config host gid db2 = (Ok added, db2) ∧
    GroupConfig.customTags added = GroupConfig.customTags groupConfig ++ [trim t] ∧
    action config host session (only_rm t) None db2 =
      (Ok (Text (js "删除成功，本群标签现为: " ++
                 or_else (join (js ", ") (GroupConfig.customTags groupConfig))
                         none_text)), db3) ∧
    getGroupConfig config host gid db3 = (Ok final, db3) ∧
    GroupConfig.customTags final = GroupConfig.customTags groupConfig.
Proof.
  intros Hguild Hgid Hadmin Hget Hen Hcomma Htr Hnd Hfresh.
  pose proof (trim_truthy _ Htr) as Ht.
  destruct (getGroupConfig_row _ _ _ _ _ _ Hget)
    as (row & rest & Hrows & _ & Hrow_en & _ & _).
  set (old := GroupConfig.customTags groupConfig) in *.
  set (data2 := Partial.mk None None (Some (old ++ [trim t]))).
  set (data3 := Partial.mk None None (Some old)).
  set (db2 := snd (database_set gid data2 db1)).
  set (db3 := snd (database_set gid data3 db2)).
  assert (matching gid db2 = assign row data2 :: map (λ r, assign r data2) rest)
    as Hrows2 by (unfold db2; by rewrite matching_set, Hrows).
  assert (matching gid db3 =
          map (λ r, assign r data3) (assign row data2 :: map (λ r, assign r data2) rest))
    as Hrows3 by (unfold db3; by rewrite matching_set, Hrows2).
  pose proof (getGroupConfig_stored config host _ _ _ _ Hrows2) as Hget2.
  pose proof (getGroupConfig_stored config host _ _ _ _ Hrows3) as Hget3.
  exists db2, (assign row data2), db3, (assign (assign row data2) data3).
  split; [|split; [done|split; [done|split; [|done]]]].
  - enter_group Hguild Hgid Hget. cbv zeta.
    rewrite given_not_bare by (right; by compute).
    unfold only_add. options_values. rewrite Hen, Ht. options_values.
    rewrite bool_decide_eq_false_2 by lia.
    by rewrite bind_update, parse_tags_single, Set_of_snoc.
  - enter_group Hguild Hgid Hget2. cbv zeta.
    rewrite given_not_bare by (right; by compute).
    unfold only_rm. options_values.
    assert (GroupConfig.enabled (assign row data2) = true) as ->
      by (simpl; congruence).
    rewrite Ht. options_values. rewrite bool_decide_eq_false_2 by lia.
    rewrite bind_update, parse_tags_single by done.
    cbn [assign data2 Partial.customTags GroupConfig.customTags default
         from_option id].
    by rewrite remove_snoc.
Qed.

(** ** Concrete invocations *)

Lemma getGroupConfig_default_once_witness :
  getGroupConfig sample_config (sample_host sample_answer 0) (js "g1") [] =
    (Ok (GroupConfig.mk None (js "g1") true true []), [sample_row true []]) ∧
  getGroupConfig sample_config (sample_host sample_answer 0) (js "g1")
    [sample_row true []] = (Ok (sample_row true []), [sample_row true []]) ∧
  matching (js "g1") [sample_row true []] = [sample_row true []].
Proof.
  apply (getGroupConfig_default_once sample_config
           (sample_host sample_answer 0) (js "g1") []).
  reflexivity.
Defined.

Lemma selectRandomImage_member_witness :
  ∃ selected result,
    selected ∈ sample_images ∧
    selectRandomImage (sample_host sample_answer 0) sample_images = Ok result ∧
    Selected.score result = Image.score selected ∧
    Selected.id result = Image.id selected ∧
    Selected.tags result = Image.tags selected ∧
    ((∃ stem, Image.full (Image.representations selected) = stem ++ js ".webm") →
     Selected.url result = Image.medium (Image.representations selected)) ∧
    ((¬ ∃ stem, Image.full (Image.representations selected) = stem ++ js ".webm") →
     Selected.url result = Image.large (Image.representations selected)).
Proof.
  apply (selectRandomImage_member (sample_host sample_answer 0) sample_images).
  discriminate.
Defined.

(** The spec's example of selection: [full] is [x.webm], so the url is the
    [medium] representation [m.mp4]. *)
Example selectRandomImage_webm :
  selectRandomImage (sample_host sample_answer 0) sample_images =
    Ok (Selected.mk (js "m.mp4") 120 7 [js "safe"; js "cute"; js "pony"]).
Proof. by vm_compute. Qed.

(** C1 (as stated) fails: the query is sent for the composed tags
    [safe, cute], and the returned record carries the tags of the image. *)
Lemma selected_tags_counterexample :
  compose_tags sample_config (sample_row true []) (Some (js "cute")) =
    [js "safe"; js "cute"] ∧
  searchImages sample_config (sample_host sample_answer 0)
    [js "safe"; js "cute"] (apiKey sample_config) = Ok sample_images ∧
  ∃ result,
    selectRandomImage (sample_host sample_answer 0) sample_images = Ok result ∧
    Selected.tags result = [js "safe"; js "cute"; js "pony"] ∧
    Selected.tags result ≠ [js "safe"; js "cute"].
Proof.
  split; [by vm_compute|]. split; [by vm_compute|].
  eexists. split; [by vm_compute|]. split; [done|]. by vm_compute.
Qed.

Lemma selected_tags_of_image_witness :
  ∃ selected result,
    selected ∈ sample_images ∧
    selectRandomImage (sample_host sample_answer 1) sample_images = Ok result ∧
    Selected.tags result = Image.tags selected ∧
    (js "q", join (js ",") [js "safe"; js "cute"])
      ∈ queryParams (search_request sample_config [js "safe"; js "cute"]
                       (apiKey sample_config)) ∧
    search sample_config (sample_host sample_answer 1) [js "safe"; js "cute"] =
      if endsWith (Selected.url result) (js ".webm")
      then Video (Selected.url result)
      else ImageThenText (Selected.url result)
             (LF ++ js "id: " ++ string_of_number (Selected.id result) ++ LF ++
              js "score: " ++ string_of_number (Selected.score result) ++ LF ++
              js "tags: " ++ join (js ", ") [js "safe"; js "cute"]).
Proof.
  apply (selected_tags_of_image sample_config (sample_host sample_answer 1)
           [js "safe"; js "cute"] sample_images).
  - reflexivity.
  - discriminate.
Defined.

Lemma search_no_results_witness :
  action sample_config
    (sample_host (Resolved (Build_ResponseData 0 [])) 0)
    (sample_session 0) no_options (Some (js "cute")) [sample_row true []]
  = (Ok (Text msg_not_found), [sample_row true []]).
Proof.
  apply (search_no_results sample_config
           (sample_host (Resolved (Build_ResponseData 0 [])) 0)
           (sample_session 0) no_options (Some (js "cute"))
           [sample_row true []] (js "g1") (sample_row true [])
           [sample_row true []]).
  - reflexivity.
  - reflexivity.
  - reflexivity.
  - reflexivity.
  - reflexivity.
  - left. exists (Build_ResponseData 0 []). split; reflexivity.
Defined.

(** The 404 half of C4 at a concrete rejection. *)
Example search_no_results_404 :
  action sample_config
    (sample_host (Rejected {| message := js "Request failed with status code 404";
                              response := Some {| status := 404;
                                                  data := js "Not Found" |} |}) 0)
    (sample_session 0) no_options (Some (js "cute")) [sample_row true []]
  = (Ok (Text msg_not_found), [sample_row true []]).
Proof. by vm_compute. Qed.

(** C9 (as stated) fails: the board answers 500 with its own body, and the
    text returned is the message of the error the transport raised. *)
Lemma board_message_counterexample :
  response sample_failure =
    Some {| status := 500; data := js "Internal Server Error" |} ∧
  action sample_config (sample_host (Rejected sample_failure) 0)
    (sample_session 0) no_options (Some (js "cute")) [sample_row true []]
  = (Ok (Text (js "Request failed with status code 500")), [sample_row true []]) ∧
  Text (js "Request failed with status code 500")
    ≠ Text (js "Internal Server Error").
Proof. split; [done|]. split; by vm_compute. Qed.

Lemma search_failure_message_witness :
  action sample_config (sample_host (Rejected sample_failure) 0)
    (sample_session 0) no_options (Some (js "cute")) [sample_row true []]
  = (Ok (Text (message sample_failure)), [sample_row true []]).
Proof.
  apply (search_failure_message sample_config
           (sample_host (Rejected sample_failure) 0)
           (sample_session 0) no_options (Some (js "cute"))
           [sample_row true []] (js "g1") (sample_row true [])
           [sample_row true []] sample_failure
           {| status := 500; data := js "Internal Server Error" |}).
  - reflexivity.
  - reflexivity.
  - reflexivity.
  - reflexivity.
  - reflexivity.
  - reflexivity.
  - reflexivity.
  - intros H. discriminate H.
Defined.

(** C3 (as stated) fails: on a disabled group [--onglobal] by a caller of
    authority 0 is answered with the not-enabled text, which is none of the
    permission-denied texts. *)
Lemma low_authority_counterexample :
  (authority_of (sample_session 0 ≫= user) < 2)%Z ∧
  truthy_flag (opt_onglobal only_onglobal) = true ∧
  action sample_config (sample_host sample_answer 0) (sample_session 0)
    only_onglobal None [sample_row false []]
  = (Ok (Text msg_not_enabled), [sample_row false []]) ∧
  msg_not_enabled ∉ [msg_admin_switch; msg_admin_global; msg_admin_tags].
Proof.
  split; [by vm_compute|]. split; [done|]. split; [by vm_compute|].
  rewrite !not_elem_of_cons. repeat split; try by vm_compute.
  apply not_elem_of_nil.
Qed.

Lemma low_authority_denied_witness :
  action sample_config (sample_host sample_answer 0) (sample_session 1)
    only_on None [sample_row false [js "art"]]
  = (Ok (Text msg_admin_switch), [sample_row false [js "art"]]).
Proof.
  assert (authority_of (sample_session 1 ≫= user) < 2)%Z as Hlow
    by (vm_compute; reflexivity).
  destruct (low_authority_denied sample_config (sample_host sample_answer 0)
              (sample_session 1) only_on None [sample_row false [js "art"]]
              (js "g1") (sample_row false [js "art"])
              [sample_row false [js "art"]]
              eq_refl eq_refl eq_refl Hlow) as (_ & Hswitch & _).
  exact (Hswitch eq_refl eq_refl).
Defined.

Lemma dispatch_priority_witness :
  action sample_config (sample_host sample_answer 0) (sample_session 0)
    only_onglobal None [sample_row false [js "art"]]
  = (Ok (Text msg_not_enabled), [sample_row false [js "art"]]).
Proof.
  destruct (dispatch_priority sample_config (sample_host sample_answer 0)
              (sample_session 0) only_onglobal None [sample_row false [js "art"]]
              (js "g1") (sample_row false [js "art"])
              [sample_row false [js "art"]]
              eq_refl eq_refl eq_refl) as (_ & _ & Hdisabled).
  apply Hdisabled; [reflexivity..|].
  right. vm_compute. intros H. discriminate H.
Defined.

(** On a disabled group [--status] still answers with the settings. *)
Example status_on_disabled_group :
  action sample_config (sample_host sample_answer 0) (sample_session 0)
    only_status None [sample_row false [js "art"]]
  = (Ok (Text (status_text (sample_row false [js "art"]))),
     [sample_row false [js "art"]]).
Proof. by vm_compute. Qed.

(** On a disabled group an administrator's [--on] stores [enabled]. *)
Example on_enables_disabled_group :
  action sample_config (sample_host sample_answer 0) (sample_session 2)
    only_on None [sample_row false [js "art"]]
  = (Ok (Text (js "搜图功能已在本群开启")), [sample_row true [js "art"]]).
Proof. by vm_compute. Qed.

(** C2 (as stated) fails: the tag is already stored, [add] changes nothing
    and [rm] removes it. *)
Lemma add_rm_counterexample :
  (comma ∉ js "art") ∧ truthy (trim (js "art")) = true ∧
  action sample_config (sample_host sample_answer 0) (sample_session 2)
    (only_add (js "art")) None [sample_row true [js "art"]]
  = (Ok (Text (js "添加成功，本群标签现为: art")), [sample_row true [js "art"]]) ∧
  action sample_config (sample_host sample_answer 0) (sample_session 2)
    (only_rm (js "art")) None [sample_row true [js "art"]]
  = (Ok (Text (js "删除成功，本群标签现为: 无")), [sample_row true []]) ∧
  GroupConfig.customTags (sample_row true []) ≠
  GroupConfig.customTags (sample_row true [js "art"]).
Proof.
  split; [apply (bool_decide_unpack _); by vm_compute|].
  split; [done|]. split; [by vm_compute|]. split; [by vm_compute|]. done.
Qed.

Lemma add_then_rm_restores_witness :
  ∃ db2 added db3 final,
    action sample_config (sample_host sample_answer 0) (sample_session 2)
      (only_add (js " cute ")) None [sample_row true [js "art"]] =
      (Ok (Text (js "添加成功，本群标签现为: " ++
                 or_else (join (js ", ") ([js "art"] ++ [trim (js " cute ")]))
                         none_text)), db2) ∧
    getGroupConfig sample_config (sample_host sample_answer 0) (js "g1") db2
      = (Ok added, db2) ∧
    GroupConfig.customTags added = [js "art"] ++ [trim (js " cute ")] ∧
    action sample_config (sample_host sample_answer 0) (sample_session 2)
      (only_rm (js " cute ")) None db2 =
      (Ok (Text (js "删除成功，本群标签现为: " ++
                 or_else (join (js ", ") [js "art"]) none_text)), db3) ∧
    getGroupConfig sample_config (sample_host sample_answer 0) (js "g1") db3
      = (Ok final, db3) ∧
    GroupConfig.customTags final = [js "art"].
Proof.
  apply (add_then_rm_restores sample_config (sample_host sample_answer 0)
           (sample_session 2) (js " cute ") [sample_row true [js "art"]]
           (js "g1") (sample_row true [js "art"]) [sample_row true [js "art"]]).
  - reflexivity.
  - reflexivity.
  - vm_compute. intros H. discriminate H.
  - reflexivity.
  - reflexivity.
  - apply (bool_decide_unpack _). vm_compute. exact I.
  - reflexivity.
  - apply (bool_decide_unpack _). vm_compute. exact I.
  - apply (bool_decide_unpack _). vm_compute. exact I.
Defined.

Lemma customTags_stay_distinct_witness :
  tags_distinct [sample_row true [js "art"; js "cute"; js "pony"]].
Proof.
  apply (customTags_stay_distinct sample_config (sample_host sample_answer 0)
           (sample_session 2) (only_add (js "cute, pony,art")) None
           [sample_row true [js "art"]]
           (Ok (Text (js "添加成功，本群标签现为: art, cute, pony")))
           [sample_row true [js "art"; js "cute"; js "pony"]]).
  - apply (bool_decide_unpack _). vm_compute. exact I.
  - vm_compute. reflexivity.
Defined.

(** * Further properties *)

(** ** Strings and tag lists *)

Lemma trimStart_id s :
  (∀ c, head s = Some c → is_white_space c = false) → trimStart s = s.
Proof.
  destruct s as [|c s]; [done|]. intros Hh. simpl. by rewrite (Hh c).
Qed.

Lemma trimEnd_id s :
  (∀ c, last s = Some c → is_white_space c = false) → trimEnd s = s.
Proof.
  intros Hl. unfold trimEnd. rewrite trimStart_id.
  - apply reverse_involutive.
  - intros c. rewrite head_reverse. apply Hl.
Qed.

Lemma trim_idemp s : trim (trim s) = trim s.
Proof.
  destruct (trim_spec s) as (l & r & _ & _ & _ & Hh & Hl).
  unfold trim at 1. rewrite trimStart_id by done. by apply trimEnd_id.
Qed.

Lemma trimStart_white s :
  Forall (λ c, is_white_space c = true) s → trimStart s = [].
Proof. induction 1 as [|c s Hc _ IH]; [done|]. simpl. by rewrite Hc. Qed.

Lemma trim_white s : Forall (λ c, is_white_space c = true) s → trim s = [].
Proof. intros Hs. unfold trim. by rewrite trimStart_white. Qed.

Lemma trim_without sep s : sep ∉ s → sep ∉ trim s.
Proof.
  destruct (trim_spec s) as (l & r & Hs & _). intros Hsep Hin. apply Hsep.
  rewrite Hs, !elem_of_app. tauto.
Qed.



Lemma split_Forall (P : N → Prop) sep s :
  Forall P s → Forall (Forall P) (split sep s).
Proof.
  induction 1 as [|c s Hc Hs IH]; simpl; [by repeat constructor|].
  destruct (decide (c = sep)); [by repeat constructor|].
  destruct (split sep s) as [|p ps]; [by repeat constructor|].
  apply Forall_cons in IH as [Hp Hps]. by repeat constructor.
Qed.

Lemma parse_tags_Forall text : Forall wellformed_tag (parse_tags text).
Proof.
  unfold parse_tags. apply Forall_forall. intros t.
  rewrite list_elem_of_filter, list_elem_of_fmap.
  intros [Ht (piece & -> & Hpiece)]. split; [by destruct (trim piece)|].
  split; [|apply trim_idemp].
  apply trim_without.
  by apply (proj1 (Forall_forall _ _) (split_pieces comma text)).
Qed.

Lemma Set_of_app l p :
  Set_of (l ++ p) =
  Set_of l ++ filter (λ t, t ∉ Set_of l) (first_occurrences p).
Proof. unfold Set_of. by rewrite foldl_app, foldl_Set_add. Qed.

Lemma filter_absent_nil (l p : list jsstring) :
  (∀ t, t ∈ p → t ∈ l) → filter (λ t, t ∉ l) p = [].
Proof.
  intros Hsub. induction p as [|t p IH]; [done|].
  rewrite filter_cons_False.
  - apply IH. intros u Hu. apply Hsub. by right.
  - intros Hn. apply Hn, Hsub. by left.
Qed.

Lemma Set_of_absorb l p : Set_of (Set_of (l ++ p) ++ p) = Set_of (l ++ p).
Proof.
  rewrite (Set_of_app (Set_of (l ++ p)) p).
  rewrite (Set_of_id (Set_of (l ++ p))) by apply Set_of_NoDup.
  rewrite filter_absent_nil; [by rewrite app_nil_r|].
  intros t. rewrite first_occurrences_elem, Set_of_elem, elem_of_app. tauto.
Qed.

Lemma Set_of_Forall (P : jsstring → Prop) (l : list jsstring) :
  Forall P l → Forall P (Set_of l).
Proof.
  rewrite !Forall_forall. intros Hl t Ht. by apply Hl, Set_of_elem.
Qed.

Lemma filter_Forall (P Q : jsstring → Prop) `{!∀ t, Decision (Q t)}
    (l : list jsstring) :
  Forall P l → Forall P (filter Q l).
Proof.
  rewrite !Forall_forall. intros Hl t Ht.
  apply list_elem_of_filter in Ht. apply Hl. tauto.
Qed.

Lemma filter_disjoint_id (p l : list jsstring) :
  (∀ t, t ∈ p → t ∉ l) → filter (λ t, t ∉ p) l = l.
Proof.
  intros Habsent. induction l as [|t l IH]; [done|].
  rewrite filter_cons_True.
  - f_equal. apply IH. intros u Hu Hin. apply (Habsent u Hu). by right.
  - intros Hin. apply (Habsent t Hin). by left.
Qed.

Lemma filter_idemp (P : jsstring → Prop) `{!∀ t, Decision (P t)}
    (l : list jsstring) :
  filter P (filter P l) = filter P l.
Proof. apply list_filter_filter_l. tauto. Qed.

Lemma join_nil_iff sep (l : list jsstring) :
  Forall (λ t, t ≠ []) l → join sep l = [] → l = [].
Proof.
  intros Hl. destruct Hl as [|t l Ht Hl]; [done|].
  destruct l as [|u l]; simpl; [done|]. by destruct t.
Qed.

(** ** The table *)

Lemma matching_nil_groupIds groupId db :
  matching groupId db = [] → groupId ∉ GroupConfig.groupId <$> db.
Proof.
  intros Hrows. rewrite list_elem_of_fmap. intros (row & -> & Hin).
  assert (row ∈ matching (GroupConfig.groupId row) db) as Hm
    by (unfold matching; by apply list_elem_of_filter).
  rewrite Hrows in Hm. by apply not_elem_of_nil in Hm.
Qed.

Lemma getGroupConfig_cases config host groupId db groupConfig db1 :
  getGroupConfig config host groupId db = (Ok groupConfig, db1) →
  (db1 = db ∧ ∃ rest, matching groupId db = groupConfig :: rest) ∨
  (matching groupId db = [] ∧
   groupConfig = GroupConfig.mk None groupId (enabledByDefault config)
                   (useGlobalTagsByDefault config) [] ∧
   db1 = db ++ [GroupConfig.mk (Some (next_id db)) groupId
                  (enabledByDefault config) (useGlobalTagsByDefault config) []]).
Proof.
  destruct (matching groupId db) as [|row rest] eqn:Hrows.
  - rewrite getGroupConfig_fresh by done. intros [= <- <-]. by right.
  - rewrite (getGroupConfig_stored _ _ _ _ row rest) by done.
    intros [= <- <-]. left. eauto.
Qed.

Lemma database_set_groupIds groupId data db :
  GroupConfig.groupId <$> snd (database_set groupId data db) =
  GroupConfig.groupId <$> db.
Proof.
  unfold database_set. simpl. rewrite <- list_fmap_compose.
  apply list_fmap_ext. intros _ row _. simpl. by destruct (decide _).
Qed.

Lemma assign_twice row data : assign (assign row data) data = assign row data.
Proof.
  unfold assign. simpl.
  by destruct (Partial.enabled data), (Partial.useGlobalTags data),
              (Partial.customTags data).
Qed.

Lemma database_set_twice groupId data db :
  snd (database_set groupId data (snd (database_set groupId data db))) =
  snd (database_set groupId data db).
Proof.
  unfold database_set. simpl. rewrite <- list_fmap_compose.
  apply list_fmap_ext. intros _ row _. simpl.
  destruct (decide (GroupConfig.groupId row = groupId)) as [Heq|Hne].
  - rewrite decide_True by done. apply assign_twice.
  - by rewrite decide_False.
Qed.

Lemma matching_snoc_other groupId other row db :
  GroupConfig.groupId row = groupId → other ≠ groupId →
  matching other (db ++ [row]) = matching other db.
Proof.
  intros Hrow Hne. unfold matching. rewrite filter_app.
  rewrite (filter_cons_False _ row) by (simpl; congruence).
  by rewrite filter_nil, app_nil_r.
Qed.

Lemma action_effect_in_group config host session options tags db gid groupConfig db1 :
  session ≫= guildId = Some gid → truthy gid = true →
  getGroupConfig config host gid db = (Ok groupConfig, db1) →
  ∃ r db2,
    action config host session options tags db = (Ok r, db2) ∧
    (db2 = db1 ∨
     ∃ data, update_of groupConfig data ∧ db2 = snd (database_set gid data db1)).
Proof.
  intros Hguild Hgid Hget. enter_group Hguild Hgid Hget. cbv zeta.
  assert (∀ r0 : Response,
    ∃ r db2, (mret r0 : M Response) db1 = (Ok r, db2) ∧
      (db2 = db1 ∨
       ∃ data, update_of groupConfig data ∧
               db2 = snd (database_set gid data db1))) as Hplain.
  { intros r0. exists r0, db1. split; [done|by left]. }
  assert (∀ data (r0 : Response), update_of groupConfig data →
    ∃ r db2,
      (mret r0 : M Response) (snd (database_set gid data db1)) = (Ok r, db2) ∧
      (db2 = db1 ∨
       ∃ data', update_of groupConfig data' ∧
                db2 = snd (database_set gid data' db1))) as Hupdate.
  { intros data r0 Hdata. exists r0, (snd (database_set gid data db1)).
    split; [done|]. right. by exists data. }
  destruct (negb (truthy_opt tags) && _); [by apply Hplain|].
  destruct (truthy_flag (opt_status options)); [by apply Hplain|].
  destruct (truthy_flag (opt_on options) || _).
  { destruct (bool_decide _); [by apply Hplain|]. rewrite bind_update.
    apply Hupdate. constructor. }
  destruct (negb (GroupConfig.enabled groupConfig)); [by apply Hplain|].
  destruct (truthy_flag (opt_onglobal options) || _).
  { destruct (bool_decide _); [by apply Hplain|]. rewrite bind_update.
    apply Hupdate. constructor. }
  destruct (truthy_opt (opt_add options) || _).
  { destruct (bool_decide _); [by apply Hplain|].
    destruct (truthy_opt (opt_add options)); rewrite bind_update;
      apply Hupdate; constructor. }
  destruct (truthy_flag (opt_tags options)); [by apply Hplain|].
  destruct (negb (truthy_opt tags)); by apply Hplain.
Qed.

Lemma action_outside_group config host session options tags db :
  (∀ gid, session ≫= guildId = Some gid → truthy gid = false) →
  action config host session options tags db = (Ok (Text msg_group_only), db).
Proof.
  intros Hout. unfold action.
  destruct (session ≫= guildId) as [gid|]; [|done]. by rewrite (Hout gid).
Qed.

(** What an invocation does to the table: nothing outside a group; in a
    group, [getGroupConfig] and then at most one update of that group. *)
Lemma action_effect config host session options tags db :
  action config host session options tags db = (Ok (Text msg_group_only), db) ∨
  ∃ gid groupConfig db1 r db2,
    session ≫= guildId = Some gid ∧ truthy gid = true ∧
    getGroupConfig config host gid db = (Ok groupConfig, db1) ∧
    action config host session options tags db = (Ok r, db2) ∧
    (db2 = db1 ∨
     ∃ data, update_of groupConfig data ∧ db2 = snd (database_set gid data db1)).
Proof.
  destruct (session ≫= guildId) as [gid|] eqn:Hguild.
  - destruct (truthy gid) eqn:Hgid.
    + right.
      destruct (getGroupConfig_total config host gid db)
        as (groupConfig & db1 & _ & _ & Hget & _).
      destruct (action_effect_in_group config host session options tags db
                  gid groupConfig db1 Hguild Hgid Hget) as (r & db2 & Hr).
      by exists gid, groupConfig, db1, r, db2.
    + left. apply action_outside_group. intros g. rewrite Hguild. congruence.
  - left. apply action_outside_group. intros g. by rewrite Hguild.
Qed.

Lemma database_set_rows (P : list jsstring → Prop) groupId data db :
  Forall (λ row, P (GroupConfig.customTags row)) db →
  (∀ l, Partial.customTags data = Some l → P l) →
  Forall (λ row, P (GroupConfig.customTags row))
    (snd (database_set groupId data db)).
Proof.
  intros Hdb Hdata. unfold database_set. simpl.
  apply Forall_fmap. eapply Forall_impl; [exact Hdb|].
  intros row Hrow. simpl. destruct (decide _); [|done].
  unfold assign. simpl. destruct (Partial.customTags data) as [l|]; simpl; auto.
Qed.

Lemma getGroupConfig_rows (P : list jsstring → Prop) config host groupId db
    groupConfig db1 :
  P [] →
  Forall (λ row, P (GroupConfig.customTags row)) db →
  getGroupConfig config host groupId db = (Ok groupConfig, db1) →
  Forall (λ row, P (GroupConfig.customTags row)) db1 ∧
  P (GroupConfig.customTags groupConfig).
Proof.
  intros Hnil Hdb Hget.
  destruct (getGroupConfig_cases _ _ _ _ _ _ Hget)
    as [[-> [rest Hrows]]|(Hrows & -> & ->)].
  - split; [done|].
    assert (groupConfig ∈ db) as Hin.
    { assert (groupConfig ∈ matching groupId db) as Hm
        by (rewrite Hrows; apply list_elem_of_here).
      unfold matching in Hm. apply list_elem_of_filter in Hm. tauto. }
    by apply (proj1 (Forall_forall _ _) Hdb).
  - split; [|done]. apply Forall_app. split; [done|]. by repeat constructor.
Qed.

(** ** What every invocation keeps *)


(** X2. When no two rows have the same [groupId], none do after an
    invocation: a row is created only for a group without one, and updates
    never change [groupId]. *)
Theorem action_keeps_groups_unique config host session options tags db :
  unique_groups db →
  unique_groups (snd (action config host session options tags db)).
Proof.
  intros Hdb.
  destruct (action_effect config host session options tags db)
    as [->|(gid & groupConfig & db1 & r & db2 & _ & _ & Hget & -> & Hdb2)];
    [done|]. simpl.
  assert (unique_groups db1) as Hdb1.
  { destruct (getGroupConfig_cases _ _ _ _ _ _ Hget)
      as [[-> _]|(Hrows & _ & ->)]; [done|].
    unfold unique_groups. rewrite fmap_app. apply NoDup_app.
    split; [done|]. split; [|apply NoDup_singleton].
    intros g Hg. simpl. rewrite list_elem_of_singleton. intros ->.
    by apply (matching_nil_groupIds _ _ Hrows). }
  destruct Hdb2 as [->|(data & _ & ->)]; [done|].
  unfold unique_groups. by rewrite database_set_groupIds.
Qed.

(** X3. An invocation only touches the rows of the group it comes from:
    the rows of every other group are the same before and after. *)
Theorem action_leaves_other_groups config host session options tags db other :
  session ≫= guildId ≠ Some other →
  matching other (snd (action config host session options tags db)) =
  matching other db.
Proof.
  intros Hother.
  destruct (action_effect config host session options tags db)
    as [->|(gid & groupConfig & db1 & r & db2 & Hguild & _ & Hget & -> & Hdb2)];
    [done|]. simpl.
  assert (other ≠ gid) as Hne by congruence.
  assert (matching other db1 = matching other db) as Hdb1.
  { destruct (getGroupConfig_cases _ _ _ _ _ _ Hget)
      as [[-> _]|(_ & _ & ->)]; [done|].
    by apply (matching_snoc_other gid). }
  destruct Hdb2 as [->|(data & _ & ->)]; [done|].
  by rewrite matching_set_other.
Qed.

(** X4. When every stored tag is well formed (not empty, without comma,
    without white space at its ends), every stored tag is well formed after
    an invocation: [add] stores old tags and parsed tags, [rm] a part of the
    old ones. *)
Theorem action_keeps_tags_wellformed config host session options tags db :
  tags_wellformed db →
  tags_wellformed (snd (action config host session options tags db)).
Proof.
  intros Hdb.
  destruct (action_effect config host session options tags db)
    as [->|(gid & groupConfig & db1 & r & db2 & _ & _ & Hget & -> & Hdb2)];
    [done|]. simpl.
  destruct (getGroupConfig_rows (Forall wellformed_tag) _ _ _ _ _ _
              (Forall_nil_2 _) Hdb Hget) as [Hdb1 Hgc].
  destruct Hdb2 as [->|(data & Hdata & ->)]; [done|].
  apply database_set_rows; [done|].
  destruct Hdata; simpl; intros l [= <-].
  - apply Set_of_Forall, Forall_app. split; [done|apply parse_tags_Forall].
  - by apply filter_Forall.
Qed.

(** X5. Outside a group (no session, no [guildId], or an empty one) every
    invocation, whatever its options, is answered with the group-only text
    and nothing is stored: no row is created. *)
Theorem outside_group_nothing_stored config host session options tags db :
  session ≫= guildId = None ∨ session ≫= guildId = Some [] →
  action config host session options tags db = (Ok (Text msg_group_only), db).
Proof.
  intros Hout. apply action_outside_group.
  intros gid Hgid. destruct Hout as [Hout|Hout]; rewrite Hout in Hgid.
  - done.
  - by injection Hgid as <-.
Qed.

(** ** Parsing and the request *)

Lemma parse_tags_blank text :
  Forall (λ c, c = comma ∨ is_white_space c = true) text → parse_tags text = [].
Proof.
  intros Hblank. unfold parse_tags.
  pose proof (split_Forall _ comma text Hblank) as Hpieces.
  pose proof (split_pieces comma text) as Hcomma.
  induction (split comma text) as [|piece pieces IH]; [done|].
  apply Forall_cons in Hpieces as [Hpiece Hpieces].
  apply Forall_cons in Hcomma as [Hno Hcomma].
  rewrite fmap_cons, filter_cons_False; [by apply IH|].
  rewrite trim_white; [done|].
  rewrite Forall_forall in Hpiece |- *. intros c Hc.
  destruct (Hpiece c Hc) as [->|Hw]; [done|exact Hw].
Qed.

(** X6. Every tag [split(',').map(trim).filter(t => t)] yields is well
    formed: not empty, without comma, and unchanged by a further [trim];
    the tags are exactly the non-empty trimmed pieces, and a text made of
    commas and white space yields none. *)
Theorem parsed_tags_wellformed text :
  Forall wellformed_tag (parse_tags text) ∧
  (∀ t, t ∈ parse_tags text ↔
        t ≠ [] ∧ ∃ piece, piece ∈ split comma text ∧ t = trim piece) ∧
  (Forall (λ c, c = comma ∨ is_white_space c = true) text →
   parse_tags text = []).
Proof.
  split; [apply parse_tags_Forall|]. split; [|apply parse_tags_blank].
  intros t. unfold parse_tags. rewrite list_elem_of_filter, list_elem_of_fmap.
  split.
  - intros [Ht (piece & -> & Hpiece)]. split; [by destruct (trim piece)|eauto].
  - intros [Ht (piece & Hpiece & ->)]. split; [by destruct (trim piece)|eauto].
Qed.


(** X8. [searchImages] returns the candidates exactly when the transport
    resolves with a [total] other than 0. Every error it throws is a new
    [Error] without [response], whose message is the not-found text (for
    [total] 0 and for status 404) or the message of the transport's
    error. *)
Theorem searchImages_outcome config host tags apiKey :
  match searchImages config host tags apiKey with
  | Ok candidates =>
    ∃ body, axios_get host (search_request config tags apiKey) = Resolved body ∧
            total body ≠ 0%Z ∧ candidates = images body
  | Throw e =>
    response e = None ∧
    ((∃ body, axios_get host (search_request config tags apiKey) = Resolved body ∧
              total body = 0%Z ∧ message e = msg_not_found) ∨
     (∃ error, axios_get host (search_request config tags apiKey) = Rejected error ∧
               message e = if has_status error 404 then msg_not_found
                           else message error))
  end.
Proof.
  unfold searchImages.
  destruct (axios_get host (search_request config tags apiKey))
    as [body|error] eqn:Hget; simpl.
  - destruct (bool_decide_reflect (total body = 0%Z)) as [Hz|Hz]; simpl.
    + split; [done|]. left. by exists body.
    + by exists body.
  - destruct (has_status error 404) eqn:Hs; simpl.
    + split; [done|]. right. exists error. by rewrite Hs.
    + split; [done|]. right. exists error. by rewrite Hs.
Qed.


(** X10. A text made only of commas and white space is not empty, so it
    passes the tests of the dispatch and the search is issued, but it
    contributes no tag: the query is made for the global and custom tags
    alone, and with neither of them [q] is the empty string. *)
Theorem blank_text_searches config host session options text db gid groupConfig db1 :
  session ≫= guildId = Some gid → truthy gid = true →
  getGroupConfig config host gid db = (Ok groupConfig, db1) →
  GroupConfig.enabled groupConfig = true →
  plain_search options (Some text) = true →
  Forall (λ c, c = comma ∨ is_white_space c = true) text →
  action config host session options (Some text) db =
    (Ok (search config host
           (Set_of ((if GroupConfig.useGlobalTags groupConfig
                     then defaultTags config else [])
                    ++ GroupConfig.customTags groupConfig))), db1) ∧
  (GroupConfig.useGlobalTags groupConfig = false →
   GroupConfig.customTags groupConfig = [] →
   head (queryParams
           (search_request config (compose_tags config groupConfig (Some text))
              (apiKey config))) = Some (js "q", [])).
Proof.
  intros Hguild Hgid Hget Hen Hplain Hblank.
  assert (compose_tags config groupConfig (Some text) =
          Set_of ((if GroupConfig.useGlobalTags groupConfig
                   then defaultTags config else [])
                  ++ GroupConfig.customTags groupConfig)) as Hcompose.
  { rewrite compose_tags_first_occurrences, <- Set_of_first_occurrences.
    cbn [default from_option id]. by rewrite parse_tags_blank, app_nil_r. }
  split.
  - rewrite <- Hcompose. by eapply action_search.
  - intros Hglobal Hcustom. rewrite Hcompose, Hglobal, Hcustom.
    unfold search_request. cbn [queryParams].
    by destruct (truthy (apiKey config)).
Qed.

(** ** The branches of the dispatch *)

Lemma reaches_global_flags options :
  reaches_global options = true →
  truthy_flag (opt_status options) = false ∧
  truthy_flag (opt_on options) || truthy_flag (opt_off options) = false.
Proof.
  unfold reaches_global. rewrite andb_true_iff, !negb_true_iff. tauto.
Qed.

Lemma reaches_edit_flags options :
  reaches_edit options = true →
  truthy_flag (opt_status options) = false ∧
  truthy_flag (opt_on options) || truthy_flag (opt_off options) = false ∧
  truthy_flag (opt_onglobal options) || truthy_flag (opt_offglobal options) = false.
Proof.
  unfold reaches_edit. rewrite andb_true_iff, negb_true_iff.
  intros [Hg ?]. apply reaches_global_flags in Hg. tauto.
Qed.

Lemma getGroupConfig_after_set config host gid db groupConfig db1 data :
  getGroupConfig config host gid db = (Ok groupConfig, db1) →
  ∃ row,
    getGroupConfig config host gid (snd (database_set gid data db1)) =
      (Ok row, snd (database_set gid data db1)) ∧
    GroupConfig.enabled row =
      default (GroupConfig.enabled groupConfig) (Partial.enabled data) ∧
    GroupConfig.useGlobalTags row =
      default (GroupConfig.useGlobalTags groupConfig) (Partial.useGlobalTags data) ∧
    GroupConfig.customTags row =
      default (GroupConfig.customTags groupConfig) (Partial.customTags data).
Proof.
  intros Hget.
  destruct (getGroupConfig_row _ _ _ _ _ _ Hget)
    as (row & rest & Hrows & _ & Hen & Hgl & Htags).
  pose proof (matching_set gid data db1) as Hset. rewrite Hrows in Hset.
  exists (assign row data). split; [by eapply getGroupConfig_stored|].
  unfold assign. simpl. by rewrite Hen, Hgl, Htags.
Qed.

Lemma getGroupConfig_host config host host' groupId db :
  getGroupConfig config host groupId db = getGroupConfig config host' groupId db.
Proof.
  destruct (matching groupId db) as [|row rest] eqn:Hrows.
  - by rewrite !getGroupConfig_fresh.
  - by rewrite !(getGroupConfig_stored _ _ _ _ row rest).
Qed.

Lemma compose_tags_ext config a b tags :
  GroupConfig.useGlobalTags a = GroupConfig.useGlobalTags b →
  GroupConfig.customTags a = GroupConfig.customTags b →
  compose_tags config a tags = compose_tags config b tags.
Proof. intros Hg Hc. unfold compose_tags. by rewrite Hg, Hc. Qed.

Lemma action_add config host session options tags db gid groupConfig db1 text :
  session ≫= guildId = Some gid → truthy gid = true →
  (2 ≤ authority_of (session ≫= user))%Z →
  getGroupConfig config host gid db = (Ok groupConfig, db1) →
  GroupConfig.enabled groupConfig = true →
  reaches_edit options = true →
  opt_add options = Some text → truthy text = true →
  action config host session options tags db =
    (Ok (Text (js "添加成功，本群标签现为: " ++
               or_else (join (js ", ")
                          (Set_of (GroupConfig.customTags groupConfig
                                   ++ parse_tags text)))
                       none_text)),
     snd (database_set gid
            (Partial.mk None None
               (Some (Set_of (GroupConfig.customTags groupConfig
                              ++ parse_tags text)))) db1)).
Proof.
  intros Hguild Hgid Hadmin Hget Hen Hreach Hadd Htext.
  destruct (reaches_edit_flags _ Hreach) as (Hst & Hsw & Hgl).
  assert (truthy_opt (opt_add options) = true) as Htr by by rewrite Hadd.
  assert (keys_length options ≠ 0) as Hkeys.
  { pose proof (truthy_opt_present _ Htr). unfold keys_length. lia. }
  enter_group Hguild Hgid Hget. cbv zeta.
  rewrite given_not_bare, Hst, Hsw, Hen, Hgl, Htr by auto. cbn [negb orb].
  rewrite bool_decide_eq_false_2 by lia. rewrite bind_update, Hadd. done.
Qed.

Lemma action_rm config host session options tags db gid groupConfig db1 text :
  session ≫= guildId = Some gid → truthy gid = true →
  (2 ≤ authority_of (session ≫= user))%Z →
  getGroupConfig config host gid db = (Ok groupConfig, db1) →
  GroupConfig.enabled groupConfig = true →
  reaches_edit options = true →
  truthy_opt (opt_add options) = false →
  opt_rm options = Some text → truthy text = true →
  action config host session options tags db =
    (Ok (Text (js "删除成功，本群标签现为: " ++
               or_else (join (js ", ")
                          (filter (λ t, includes (parse_tags text) t = false)
                             (GroupConfig.customTags groupConfig)))
                       none_text)),
     snd (database_set gid
            (Partial.mk None None
               (Some (filter (λ t, includes (parse_tags text) t = false)
                        (GroupConfig.customTags groupConfig)))) db1)).
Proof.
  intros Hguild Hgid Hadmin Hget Hen Hreach Hadd Hrm Htext.
  destruct (reaches_edit_flags _ Hreach) as (Hst & Hsw & Hgl).
  assert (truthy_opt (opt_rm options) = true) as Htr by by rewrite Hrm.
  assert (keys_length options ≠ 0) as Hkeys.
  { pose proof (truthy_opt_present _ Htr). unfold keys_length. lia. }
  enter_group Hguild Hgid Hget. cbv zeta.
  rewrite given_not_bare, Hst, Hsw, Hen, Hgl, Hadd, Htr by auto. cbn [negb orb].
  rewrite bool_decide_eq_false_2 by lia. rewrite bind_update, Hrm. done.
Qed.

(** X11. With no text and no truthy option the answer is the help text,
    except that on a disabled group an invocation that carries an option
    key gets the not-enabled text; in both cases nothing is updated. *)
Theorem help_when_nothing_asked config host session options tags db gid groupConfig db1 :
  session ≫= guildId = Some gid → truthy gid = true →
  getGroupConfig config host gid db = (Ok groupConfig, db1) →
  truthy_opt tags = false → no_truthy_option options = true →
  action config host session options tags db =
    (Ok (Text (if bool_decide (keys_length options = 0)
                  || GroupConfig.enabled groupConfig
               then helpMessage else msg_not_enabled)), db1).
Proof.
  intros Hguild Hgid Hget Htags Hnone. unfold no_truthy_option in Hnone.
  rewrite !andb_true_iff, !negb_true_iff in Hnone.
  destruct Hnone as ((((Hst & Hsw) & Hgl) & Hed) & Htg).
  enter_group Hguild Hgid Hget. cbv zeta. rewrite Htags. cbn [negb andb].
  destruct (bool_decide (keys_length options = 0)); cbn [orb]; [reflexivity|].
  rewrite Hst, Hsw.
  destruct (GroupConfig.enabled groupConfig); cbn [negb]; [|reflexivity].
  rewrite Hgl, Hed, Htg. reflexivity.
Qed.

(** X12. On an enabled group, [onglobal]/[offglobal] by a caller of
    authority 2 or more stores [useGlobalTags] ([onglobal] wins when both
    are given) and leaves [enabled] and [customTags] as they were; from then
    on the composed tags contain the global tags exactly when it was
    [onglobal]. *)
Theorem global_toggle_stored config host session options tags db gid groupConfig db1 :
  session ≫= guildId = Some gid → truthy gid = true →
  (2 ≤ authority_of (session ≫= user))%Z →
  getGroupConfig config host gid db = (Ok groupConfig, db1) →
  GroupConfig.enabled groupConfig = true →
  reaches_global options = true →
  truthy_flag (opt_onglobal options) || truthy_flag (opt_offglobal options) = true →
  ∃ db2 row,
    action config host session options tags db =
      (Ok (Text (js "全局标签已" ++
                 (if truthy_flag (opt_onglobal options)
                  then js "启用" else js "禁用"))), db2) ∧
    getGroupConfig config host gid db2 = (Ok row, db2) ∧
    GroupConfig.useGlobalTags row = truthy_flag (opt_onglobal options) ∧
    GroupConfig.enabled row = true ∧
    GroupConfig.customTags row = GroupConfig.customTags groupConfig ∧
    ∀ text,
      compose_tags config row text =
      Set_of ((if truthy_flag (opt_onglobal options) then defaultTags config else [])
              ++ GroupConfig.customTags groupConfig
              ++ parse_tags (default [] text)).
Proof.
  intros Hguild Hgid Hadmin Hget Hen Hreach Hgl.
  destruct (reaches_global_flags _ Hreach) as (Hst & Hsw).
  assert (keys_length options ≠ 0) as Hkeys.
  { eapply orb_flag_keys; [done|]. unfold keys_length. lia. }
  destruct (getGroupConfig_after_set config host gid db groupConfig db1
              (Partial.mk None (Some (truthy_flag (opt_onglobal options))) None)
              Hget) as (row & Hget2 & Hen2 & Hgl2 & Htags2).
  simpl in Hen2, Hgl2, Htags2.
  eexists _, row. split; [|split; [exact Hget2|]].
  - enter_group Hguild Hgid Hget. cbv zeta.
    rewrite given_not_bare, Hst, Hsw, Hen, Hgl by auto. cbn [negb].
    rewrite bool_decide_eq_false_2 by lia. rewrite bind_update.
    by destruct (truthy_flag (opt_onglobal options)).
  - split; [done|]. split; [congruence|]. split; [done|].
    intros text. unfold compose_tags. by rewrite user_tags_parse, Hgl2, Htags2.
Qed.

(** X13. [add] by an administrator of an enabled group whose stored tags
    hold no tag twice keeps the stored tags, in their order, and appends the
    parsed tags that are not stored yet, each once, in the order of their
    first occurrence; [enabled] and [useGlobalTags] are left as they were.
    When [rm] is given too, only [add] is performed. *)
Theorem add_appends_new_tags config host session options tags db gid groupConfig db1
    text :
  session ≫= guildId = Some gid → truthy gid = true →
  (2 ≤ authority_of (session ≫= user))%Z →
  getGroupConfig config host gid db = (Ok groupConfig, db1) →
  GroupConfig.enabled groupConfig = true →
  reaches_edit options = true →
  opt_add options = Some text → truthy text = true →
  NoDup (GroupConfig.customTags groupConfig) →
  let newTags :=
    GroupConfig.customTags groupConfig
    ++ filter (λ t, t ∉ GroupConfig.customTags groupConfig)
         (first_occurrences (parse_tags text)) in
  ∃ db2 row,
    action config host session options tags db =
      (Ok (Text (js "添加成功，本群标签现为: " ++
                 or_else (join (js ", ") newTags) none_text)), db2) ∧
    getGroupConfig config host gid db2 = (Ok row, db2) ∧
    GroupConfig.customTags row = newTags ∧
    GroupConfig.enabled row = true ∧
    GroupConfig.useGlobalTags row = GroupConfig.useGlobalTags groupConfig.
Proof.
  intros Hguild Hgid Hadmin Hget Hen Hreach Hadd Htext Hnd newTags.
  assert (Set_of (GroupConfig.customTags groupConfig ++ parse_tags text) = newTags)
    as Hnew by (by rewrite Set_of_app, Set_of_id).
  destruct (getGroupConfig_after_set config host gid db groupConfig db1
              (Partial.mk None None (Some newTags)) Hget)
    as (row & Hget2 & Hen2 & Hgl2 & Htags2).
  simpl in Hen2, Hgl2, Htags2.
  eexists _, row. split; [|split; [exact Hget2|]].
  - rewrite <- Hnew. by eapply action_add.
  - split; [done|]. split; [congruence|done].
Qed.

(** X14. [add] is idempotent: repeating the invocation on the table it
    produced gives the same answer and leaves the table as it is. *)
Theorem add_twice_same config host session options tags db gid groupConfig db1 text :
  session ≫= guildId = Some gid → truthy gid = true →
  (2 ≤ authority_of (session ≫= user))%Z →
  getGroupConfig config host gid db = (Ok groupConfig, db1) →
  GroupConfig.enabled groupConfig = true →
  reaches_edit options = true →
  opt_add options = Some text → truthy text = true →
  ∃ r db2,
    action config host session options tags db = (Ok r, db2) ∧
    action config host session options tags db2 = (Ok r, db2).
Proof.
  intros Hguild Hgid Hadmin Hget Hen Hreach Hadd Htext.
  set (newTags := Set_of (GroupConfig.customTags groupConfig ++ parse_tags text)).
  destruct (getGroupConfig_after_set config host gid db groupConfig db1
              (Partial.mk None None (Some newTags)) Hget)
    as (row & Hget2 & Hen2 & _ & Htags2).
  simpl in Hen2, Htags2.
  eexists _, _. split; [by eapply action_add|].
  rewrite (action_add _ _ _ _ _ _ _ row _ text Hguild Hgid Hadmin Hget2)
    by congruence.
  rewrite Htags2. unfold newTags. by rewrite Set_of_absorb, database_set_twice.
Qed.

(** X15. [rm] by an administrator of an enabled group (with no [add])
    stores the old tags without the parsed ones, the others in their order;
    when none of the parsed tags is stored the list stays as it is; and [rm]
    is idempotent: repeating the invocation gives the same answer and leaves
    the table as it is. *)
Theorem rm_removes_parsed_tags config host session options tags db gid groupConfig db1
    text :
  session ≫= guildId = Some gid → truthy gid = true →
  (2 ≤ authority_of (session ≫= user))%Z →
  getGroupConfig config host gid db = (Ok groupConfig, db1) →
  GroupConfig.enabled groupConfig = true →
  reaches_edit options = true →
  truthy_opt (opt_add options) = false →
  opt_rm options = Some text → truthy text = true →
  let newTags :=
    filter (λ t, t ∉ parse_tags text) (GroupConfig.customTags groupConfig) in
  ∃ r db2 row,
    r = Text (js "删除成功，本群标签现为: " ++
              or_else (join (js ", ") newTags) none_text) ∧
    action config host session options tags db = (Ok r, db2) ∧
    getGroupConfig config host gid db2 = (Ok row, db2) ∧
    GroupConfig.customTags row = newTags ∧
    ((∀ t, t ∈ parse_tags text → t ∉ GroupConfig.customTags groupConfig) →
     newTags = GroupConfig.customTags groupConfig) ∧
    action config host session options tags db2 = (Ok r, db2).
Proof.
  intros Hguild Hgid Hadmin Hget Hen Hreach Hadd Hrm Htext newTags.
  assert (∀ l : list jsstring,
            filter (λ t, includes (parse_tags text) t = false) l =
            filter (λ t, t ∉ parse_tags text) l) as Hfilter.
  { intros l. apply list_filter_iff. intros t. unfold includes.
    by rewrite bool_decide_eq_false. }
  destruct (getGroupConfig_after_set config host gid db groupConfig db1
              (Partial.mk None None (Some newTags)) Hget)
    as (row & Hget2 & Hen2 & _ & Htags2).
  simpl in Hen2, Htags2.
  pose proof (action_rm _ _ _ _ tags _ _ _ _ text Hguild Hgid Hadmin Hget Hen
                Hreach Hadd Hrm Htext) as Hact.
  rewrite Hfilter in Hact.
  eexists _, _, row. split; [done|]. split; [exact Hact|].
  split; [exact Hget2|]. split; [done|]. split.
  - intros Habsent. by apply filter_disjoint_id.
  - rewrite (action_rm _ _ _ _ _ _ _ row _ text Hguild Hgid Hadmin Hget2)
      by congruence.
    rewrite Hfilter, Htags2. unfold newTags.
    by rewrite filter_idemp, database_set_twice.
Qed.

(** X16. After [on] or [off] by a caller of authority 2 or more, a plain
    search from the same group is issued, with the tags composed from the
    group's unchanged settings, exactly when the switch was [on]; after
    [off] it is answered with the not-enabled text. Neither changes the
    table further. *)
Theorem switch_then_search config host host' session session' options options'
    tags tags' db gid groupConfig db1 :
  session ≫= guildId = Some gid → truthy gid = true →
  (2 ≤ authority_of (session ≫= user))%Z →
  getGroupConfig config host gid db = (Ok groupConfig, db1) →
  truthy_flag (opt_status options) = false →
  truthy_flag (opt_on options) || truthy_flag (opt_off options) = true →
  session' ≫= guildId = Some gid →
  plain_search options' tags' = true →
  ∃ r db2,
    action config host session options tags db = (Ok r, db2) ∧
    action config host' session' options' tags' db2 =
      (Ok (if truthy_flag (opt_on options)
           then search config host' (compose_tags config groupConfig tags')
           else Text msg_not_enabled), db2).
Proof.
  intros Hguild Hgid Hadmin Hget Hst Hsw Hguild' Hplain.
  assert (keys_length options ≠ 0) as Hkeys.
  { eapply orb_flag_keys; [done|]. unfold keys_length. lia. }
  destruct (getGroupConfig_after_set config host' gid db groupConfig db1
              (Partial.mk (Some (truthy_flag (opt_on options))) None None))
    as (row & Hget2 & Hen2 & Hgl2 & Htags2).
  { by rewrite (getGroupConfig_host config host' host). }
  simpl in Hen2, Hgl2, Htags2.
  exists (Text (js "搜图功能已在本群" ++
                (if truthy_flag (opt_on options) then js "开启" else js "关闭"))),
         (snd (database_set gid
                 (Partial.mk (Some (truthy_flag (opt_on options))) None None) db1)).
  split.
  - enter_group Hguild Hgid Hget. cbv zeta.
    rewrite given_not_bare, Hst, Hsw by auto.
    rewrite bool_decide_eq_false_2 by lia. rewrite bind_update.
    destruct (truthy_flag (opt_on options)); reflexivity.
  - destruct (truthy_flag (opt_on options)) eqn:Hon.
    + rewrite (action_search _ _ _ _ _ _ _ _ _ Hguild' Hgid Hget2 Hen2 Hplain).
      by rewrite (compose_tags_ext config row groupConfig).
    + unfold plain_search in Hplain.
      rewrite !andb_true_iff, !negb_true_iff in Hplain.
      destruct Hplain as (((((Htags' & Hst') & Hsw') & _) & _) & _).
      enter_group Hguild' Hgid Hget2. cbv zeta.
      rewrite given_not_bare, Hst', Hsw', Hen2 by auto. reflexivity.
Qed.

(** X17. On an enabled group [tags] (with no option tested before it) is
    answered, for every caller and whatever text comes with it, with the
    custom tags joined by [, ], and nothing is updated; the placeholder
    stands for an empty list, and a non-empty list of non-empty tags is
    listed as it is. *)
Theorem tags_listing config host session options tags db gid groupConfig db1 :
  session ≫= guildId = Some gid → truthy gid = true →
  getGroupConfig config host gid db = (Ok groupConfig, db1) →
  GroupConfig.enabled groupConfig = true →
  reaches_edit options = true →
  truthy_opt (opt_add options) || truthy_opt (opt_rm options) = false →
  truthy_flag (opt_tags options) = true →
  let listed :=
    or_else (join (js ", ") (GroupConfig.customTags groupConfig)) none_text in
  action config host session options tags db =
    (Ok (Text (js "当前群聊内置标签: " ++ listed)), db1) ∧
  (GroupConfig.customTags groupConfig = [] → listed = none_text) ∧
  (GroupConfig.customTags groupConfig ≠ [] →
   Forall (λ t, t ≠ []) (GroupConfig.customTags groupConfig) →
   listed = join (js ", ") (GroupConfig.customTags groupConfig)).
Proof.
  intros Hguild Hgid Hget Hen Hreach Hed Htg listed.
  destruct (reaches_edit_flags _ Hreach) as (Hst & Hsw & Hgl).
  assert (keys_length options ≠ 0) as Hkeys.
  { pose proof (truthy_flag_present _ Htg). unfold keys_length. lia. }
  split; [|split].
  - enter_group Hguild Hgid Hget. cbv zeta.
    rewrite given_not_bare, Hst, Hsw, Hen, Hgl, Hed, Htg by auto. reflexivity.
  - unfold listed. by intros ->.
  - intros Hne Htags. unfold listed, or_else.
    destruct (join (js ", ") (GroupConfig.customTags groupConfig)) eqn:Hjoin;
      [|done].
    by apply join_nil_iff in Hjoin.
Qed.

(** ** Concrete invocations for the further properties *)

Lemma action_keeps_groups_unique_witness :
  unique_groups
    (snd (action sample_config (sample_host sample_answer 0) (sample_session 2)
            (only_add (js "cute")) None
            [GroupConfig.mk (Some 1%N) (js "g2") true true []])).
Proof.
  apply action_keeps_groups_unique. unfold unique_groups. decide_by_computation.
Defined.

Lemma action_leaves_other_groups_witness :
  matching (js "g2")
    (snd (action sample_config (sample_host sample_answer 0) (sample_session 2)
            (only_add (js "cute")) None
            [sample_row true []; GroupConfig.mk (Some 2%N) (js "g2") true true []]))
  = [GroupConfig.mk (Some 2%N) (js "g2") true true []].
Proof.
  rewrite (action_leaves_other_groups sample_config
             (sample_host sample_answer 0) (sample_session 2)
             (only_add (js "cute")) None
             [sample_row true []; GroupConfig.mk (Some 2%N) (js "g2") true true []]
             (js "g2")).
  - vm_compute. reflexivity.
  - vm_compute. intros H. discriminate H.
Defined.

Lemma action_keeps_tags_wellformed_witness :
  tags_wellformed
    (snd (action sample_config (sample_host sample_answer 0) (sample_session 2)
            (only_add (js " cute ,, pony")) None [sample_row true [js "art"]])).
Proof.
  apply action_keeps_tags_wellformed.
  repeat constructor; [discriminate|decide_by_computation].
Defined.

Lemma outside_group_nothing_stored_witness :
  action sample_config (sample_host sample_answer 0) None only_on
    (Some (js "cute")) [sample_row false []]
  = (Ok (Text msg_group_only), [sample_row false []]).
Proof. apply outside_group_nothing_stored. left. reflexivity. Defined.



Lemma blank_text_searches_witness :
  action sample_config (sample_host sample_answer 1) (sample_session 0)
    no_options (Some (js ", ,")) [sample_row true [js "art"]]
  = (Ok (search sample_config (sample_host sample_answer 1)
           (Set_of ([js "safe"] ++ [js "art"]))), [sample_row true [js "art"]]).
Proof.
  destruct (blank_text_searches sample_config (sample_host sample_answer 1)
              (sample_session 0) no_options (js ", ,")
              [sample_row true [js "art"]] (js "g1")
              (sample_row true [js "art"]) [sample_row true [js "art"]])
    as [Hact _].
  - reflexivity.
  - reflexivity.
  - reflexivity.
  - reflexivity.
  - reflexivity.
  - blank_text.
  - exact Hact.
Defined.

Lemma help_when_nothing_asked_witness :
  action sample_config (sample_host sample_answer 0) (sample_session 0)
    no_options None [sample_row false []]
  = (Ok (Text helpMessage), [sample_row false []]).
Proof.
  rewrite (help_when_nothing_asked sample_config (sample_host sample_answer 0)
             (sample_session 0) no_options None [sample_row false []]
             (js "g1") (sample_row false []) [sample_row false []]
             eq_refl eq_refl eq_refl eq_refl eq_refl).
  vm_compute. reflexivity.
Defined.

Lemma global_toggle_stored_witness :
  ∃ db2 row,
    getGroupConfig sample_config (sample_host sample_answer 0) (js "g1") db2
      = (Ok row, db2) ∧
    GroupConfig.useGlobalTags row = false ∧
    compose_tags sample_config row (Some (js "cute")) = [js "art"; js "cute"].
Proof.
  destruct (global_toggle_stored sample_config (sample_host sample_answer 0)
              (sample_session 2) only_offglobal None
              [sample_row true [js "art"]] (js "g1")
              (sample_row true [js "art"]) [sample_row true [js "art"]])
    as (db2 & row & _ & Hget & Hglobal & _ & _ & Hcompose).
  - reflexivity.
  - reflexivity.
  - vm_compute. intros H. discriminate H.
  - reflexivity.
  - reflexivity.
  - reflexivity.
  - reflexivity.
  - exists db2, row. split; [exact Hget|]. split; [exact Hglobal|].
    rewrite Hcompose. vm_compute. reflexivity.
Defined.

Lemma add_appends_new_tags_witness :
  ∃ db2 row,
    getGroupConfig sample_config (sample_host sample_answer 0) (js "g1") db2
      = (Ok row, db2) ∧
    GroupConfig.customTags row = [js "art"; js "cute"; js "pony"].
Proof.
  destruct (add_appends_new_tags sample_config (sample_host sample_answer 0)
              (sample_session 2) (only_add (js " cute , art, pony,cute")) None
              [sample_row true [js "art"]] (js "g1")
              (sample_row true [js "art"]) [sample_row true [js "art"]]
              (js " cute , art, pony,cute"))
    as (db2 & row & _ & Hget & Htags & _).
  - reflexivity.
  - reflexivity.
  - vm_compute. intros H. discriminate H.
  - reflexivity.
  - reflexivity.
  - reflexivity.
  - reflexivity.
  - reflexivity.
  - decide_by_computation.
  - exists db2, row. split; [exact Hget|]. rewrite Htags. vm_compute. reflexivity.
Defined.

Lemma add_twice_same_witness :
  ∃ r db2,
    action sample_config (sample_host sample_answer 0) (sample_session 2)
      (only_add (js "cute")) None [sample_row true [js "art"]] = (Ok r, db2) ∧
    action sample_config (sample_host sample_answer 0) (sample_session 2)
      (only_add (js "cute")) None db2 = (Ok r, db2).
Proof.
  apply (add_twice_same sample_config (sample_host sample_answer 0)
           (sample_session 2) (only_add (js "cute")) None
           [sample_row true [js "art"]] (js "g1")
           (sample_row true [js "art"]) [sample_row true [js "art"]]
           (js "cute")).
  - reflexivity.
  - reflexivity.
  - vm_compute. intros H. discriminate H.
  - reflexivity.
  - reflexivity.
  - reflexivity.
  - reflexivity.
  - reflexivity.
Defined.

Lemma rm_removes_parsed_tags_witness :
  ∃ db2 row,
    getGroupConfig sample_config (sample_host sample_answer 0) (js "g1") db2
      = (Ok row, db2) ∧
    GroupConfig.customTags row = [js "art"; js "pony"].
Proof.
  destruct (rm_removes_parsed_tags sample_config (sample_host sample_answer 0)
              (sample_session 2) (only_rm (js "cute, safe")) None
              [sample_row true [js "art"; js "cute"; js "pony"]] (js "g1")
              (sample_row true [js "art"; js "cute"; js "pony"])
              [sample_row true [js "art"; js "cute"; js "pony"]]
              (js "cute, safe"))
    as (r & db2 & row & _ & _ & Hget & Htags & _).
  - reflexivity.
  - reflexivity.
  - vm_compute. intros H. discriminate H.
  - reflexivity.
  - reflexivity.
  - reflexivity.
  - reflexivity.
  - reflexivity.
  - reflexivity.
  - exists db2, row. split; [exact Hget|]. rewrite Htags. vm_compute. reflexivity.
Defined.

Lemma switch_then_search_witness :
  ∃ r db2,
    action sample_config (sample_host sample_answer 0) (sample_session 2)
      only_off None [sample_row true [js "art"]] = (Ok r, db2) ∧
    action sample_config (sample_host sample_answer 1) (sample_session 0)
      no_options (Some (js "cute")) db2 = (Ok (Text msg_not_enabled), db2).
Proof.
  apply (switch_then_search sample_config (sample_host sample_answer 0)
           (sample_host sample_answer 1) (sample_session 2) (sample_session 0)
           only_off no_options None (Some (js "cute"))
           [sample_row true [js "art"]] (js "g1")
           (sample_row true [js "art"]) [sample_row true [js "art"]]).
  - reflexivity.
  - reflexivity.
  - vm_compute. intros H. discriminate H.
  - reflexivity.
  - reflexivity.
  - reflexivity.
  - reflexivity.
  - reflexivity.
Defined.

Lemma tags_listing_witness :
  action sample_config (sample_host sample_answer 0) (sample_session 0)
    only_tags (Some (js "cute")) [sample_row true [js "art"; js "pony"]]
  = (Ok (Text (js "当前群聊内置标签: art, pony")),
     [sample_row true [js "art"; js "pony"]]).
Proof.
  destruct (tags_listing sample_config (sample_host sample_answer 0)
              (sample_session 0) only_tags (Some (js "cute"))
              [sample_row true [js "art"; js "pony"]] (js "g1")
              (sample_row true [js "art"; js "pony"])
              [sample_row true [js "art"; js "pony"]])
    as (Hact & _ & _).
  - reflexivity.
  - reflexivity.
  - reflexivity.
  - reflexivity.
  - reflexivity.
  - reflexivity.
  - reflexivity.
  - rewrite Hact. vm_compute. reflexivity.
Defined.
